(** * scripts/import_issues_from_csv.py: a shallow embedding

    The script reads the rows of a CSV file, makes sure that a milestone and
    the labels the rows mention exist in a GitHub repository, creates one
    issue per row and then, in a second sweep, appends dependency, parent and
    subtask links to the bodies of the created issues.

    Python [str] values are Rocq [string]s holding the UTF-8 encoding of the
    text; a [dict] is a [gmap], except where the iteration order of the
    dictionary is observable, where it is an association list in insertion
    order.  The remote service, the process environment, the file system and
    the two output streams make up an explicit [World] that is threaded
    through the effectful functions. *)

From Stdlib Require Import ZArith String Ascii List.
From stdpp Require Import gmap strings list fin_maps pretty.
Import ListNotations.

Local Open Scope Z_scope.

(** ** Python strings *)

(** Truth value of a [str]: the empty string is false. *)
Definition truthy (s : string) : bool := negb (String.eqb s "").

(** Truth value of what [dict.get] returns: [None] and [''] are false. *)
Definition truthy_opt (o : option string) : bool :=
  match o with Some s => truthy s | None => false end.

(** [x or d] for the result [x] of [dict.get]. *)
Definition or_else (o : option string) (d : string) : string :=
  match o with Some s => if truthy s then s else d | None => d end.

(** Rendering of a value inside an f-string: a [str] is itself, [None] is
    the text [None]. *)
Definition fmt_opt (o : option string) : string := default "None" o.

(** Code points below U+0080 that [str.isspace] accepts: U+0009 to U+000D and
    U+001C to U+0020. *)
Definition space1 (c : ascii) : bool :=
  let n := N_of_ascii c in
  ((9 <=? n)%N && (n <=? 13)%N) || ((28 <=? n)%N && (n <=? 32)%N).

(** Encodings on two bytes: U+0085 and U+00A0. *)
Definition space2 (c0 c1 : ascii) : bool :=
  (N_of_ascii c0 =? 194)%N &&
  ((N_of_ascii c1 =? 133)%N || (N_of_ascii c1 =? 160)%N).

(** Encodings on three bytes: U+1680, U+2000 to U+200A, U+2028, U+2029,
    U+202F, U+205F and U+3000. *)
Definition space3 (c0 c1 c2 : ascii) : bool :=
  let '(a, b, c) := (N_of_ascii c0, N_of_ascii c1, N_of_ascii c2) in
  ((a =? 225) && (b =? 154) && (c =? 128))%N ||
  ((a =? 226) && (b =? 128) &&
     ((128 <=? c) && (c <=? 138) || (c =? 168) || (c =? 169) || (c =? 175)))%N ||
  ((a =? 226) && (b =? 129) && (c =? 159))%N ||
  ((a =? 227) && (b =? 128) && (c =? 128))%N.

(** [str.lstrip()]: drop white space characters from the left end. *)
Fixpoint lstrip (s : string) : string :=
  match s with
  | EmptyString => EmptyString
  | String c0 s1 =>
      if space1 c0 then lstrip s1
      else match s1 with
           | String c1 s2 =>
               if space2 c0 c1 then lstrip s2
               else match s2 with
                    | String c2 s3 => if space3 c0 c1 c2 then lstrip s3 else s
                    | EmptyString => s
                    end
           | EmptyString => s
           end
  end.

(** [str.rstrip()]: cut the string where the rest is white space only. *)
Fixpoint rstrip (s : string) : string :=
  match s with
  | EmptyString => EmptyString
  | String c s1 =>
      if String.eqb (lstrip s) "" then EmptyString else String c (rstrip s1)
  end.

(** [str.strip()]. *)
Definition strip (s : string) : string := rstrip (lstrip s).

(** [re.split] on a character class, and [str.split] on one character: the
    pieces between the separators, empty pieces included. *)
Fixpoint split_on (sep : ascii → bool) (s : string) : list string :=
  match s with
  | EmptyString => [EmptyString]
  | String c s1 =>
      if sep c then EmptyString :: split_on sep s1
      else match split_on sep s1 with
           | piece :: pieces => String c piece :: pieces
           | [] => [String c EmptyString]
           end
  end.

Definition is_comma (c : ascii) : bool := Ascii.eqb c ",".
Definition is_semicolon_or_comma (c : ascii) : bool :=
  Ascii.eqb c ";" || Ascii.eqb c ",".

(** [sep.join(l)]. *)
Definition join (sep : string) (l : list string) : string := String.concat sep l.

Definition nl : string := String "010" EmptyString.

(** ** Rows *)

(** One record of the CSV file as [parse_csv] returns it: a dictionary from
    column name to stripped cell. *)
Abbreviation Row := (gmap string string).

(** [r.get(k, "")]. *)
Definition get_or_empty (r : Row) (k : string) : string := default "" (r !! k).

(** ** The creation pass of [main]: what is computed for a row *)

(** The list [header] (lines 126 to 130). *)
Definition header (typ prio est milestone : string) : list string :=
  let header := [] in
  let header := if truthy typ then header ++ ["**Type:** " +:+ typ] else header in
  let header := if truthy prio then header ++ ["**Priority:** " +:+ prio] else header in
  let header := if truthy est then header ++ ["**Estimate:** " +:+ est +:+ " pts"] else header in
  let header := if truthy milestone then header ++ ["**Milestone:** " +:+ milestone] else header in
  header.

(** The string [body] (lines 132 to 135). *)
Definition body (header : list string) (desc : string) : string :=
  let body := "" in
  let body := match header with
              | [] => body
              | _ :: _ => body +:+ join nl header +:+ nl +:+ nl
              end in
  body +:+ desc.

(** The body of the issue created for row [r]. *)
Definition row_body (r : Row) (milestone : string) : string :=
  let typ := get_or_empty r "Type" in
  let prio := get_or_empty r "Priority" in
  let est := get_or_empty r "Estimate" in
  let desc := get_or_empty r "Description" in
  body (header typ prio est milestone) desc.

(** The list [labels] (lines 137 to 141). *)
Definition labels (r : Row) : list string :=
  let typ := get_or_empty r "Type" in
  let prio := get_or_empty r "Priority" in
  let labels := [] in
  let labels := if truthy typ then labels ++ [typ] else labels in
  let labels := if truthy prio then labels ++ [prio] else labels in
  if truthy_opt (r !! "Labels")
  then labels ++ map strip (List.filter (λ x, truthy (strip x))
                              (split_on is_comma (get_or_empty r "Labels")))
  else labels.

(** The list [deps] (line 143). *)
Definition deps (r : Row) : list string :=
  map strip (List.filter (λ x, truthy (strip x))
               (split_on is_semicolon_or_comma (get_or_empty r "Dependencies"))).

(** ** The wording of the specification, for comparison *)

(** Section 4.4, step 1: the header lines of the fields that are not empty,
    joined by newlines, then a blank line, then the description; the
    description alone when there is no header line. *)
Definition spec_header_lines (typ prio est milestone : string) : list string :=
  map snd (List.filter (λ p, truthy (fst p))
    [ (typ, "**Type:** " +:+ typ);
      (prio, "**Priority:** " +:+ prio);
      (est, "**Estimate:** " +:+ est +:+ " pts");
      (milestone, "**Milestone:** " +:+ milestone) ]).

Definition spec_body (typ prio est milestone desc : string) : string :=
  match spec_header_lines typ prio est milestone with
  | [] => desc
  | lines => join nl lines +:+ nl +:+ nl +:+ desc
  end.

(** Section 4.3: split on comma or semicolon, trim each token, discard the
    empty tokens. *)
Definition spec_deps (field : string) : list string :=
  List.filter truthy (map strip (split_on is_semicolon_or_comma field)).

(** ** Exceptions and results *)

Inductive Exn : Type :=
| HTTPError (status : Z)            (* [raise_for_status] on an error answer *)
| ConnectionError                   (* the service could not be reached *)
| JSONDecodeError                   (* [json()] on an answer without document *)
| KeyError (key : string)           (* [d[k]] for a key that [d] lacks *)
| ValueError                        (* unpacking a list of the wrong length *)
| AttributeError                    (* [strip] called on a list *)
| FileNotFoundError (path : string)
| SystemExit (code : Z).

(** [SystemExit] derives from [BaseException] only: [except Exception] lets
    it through. *)
Definition is_Exception (e : Exn) : bool :=
  match e with SystemExit _ => false | _ => true end.

(** Outcome of a computation.  [OutOfFuel] is not a Python outcome: it marks
    a run of the model cut short by the bound on the only unbounded loop,
    the page loop of [list_labels]. *)
Inductive Result (A : Type) : Type :=
| Ok (a : A)
| Raise (e : Exn)
| OutOfFuel.
Arguments Ok {A} a.
Arguments Raise {A} e.
Arguments OutOfFuel {A}.

Global Instance Result_ret : MRet Result := λ A a, Ok a.
Global Instance Result_bind : MBind Result := λ A B k m,
  match m with Ok a => k a | Raise e => Raise e | OutOfFuel => OutOfFuel end.

(** [d[k]]. *)
Definition getitem {K V} `{Countable K} (d : gmap K V) (k : K) (shown : string)
  : Result V :=
  match d !! k with Some v => Ok v | None => Raise (KeyError shown) end.

(** ** The remote service *)

Record Milestone := { ms_number : Z; ms_title : string; ms_state : string }.

Record Label := { lb_name : string; lb_color : string }.

Record Issue := {
  is_number : Z;
  is_title : string;
  is_body : option string;          (* [null] when the issue has no body *)
  is_labels : list string;
  is_milestone : option Z;
  is_assignees : list string }.

(** What [id_to_issue] holds: the number of a created issue, or the
    placeholder text of a dry run. *)
Inductive IssueRef : Type :=
| Number (n : Z)
| Placeholder (s : string).

Global Instance IssueRef_eq_dec : EqDecision IssueRef.
Proof. solve_decision. Defined.

Definition truthy_ref (v : IssueRef) : bool :=
  match v with Number n => negb (n =? 0) | Placeholder s => truthy s end.

(** Rendering inside an f-string. *)
Definition fmt_ref (v : IssueRef) : string :=
  match v with Number n => pretty n | Placeholder s => s end.

Definition fmt_ref_opt (o : option IssueRef) : string :=
  match o with Some v => fmt_ref v | None => "None" end.

(** The JSON document sent to create an issue; an absent key is [None]. *)
Record Payload := {
  pl_title : string;
  pl_body : string;
  pl_labels : option (list string);
  pl_milestone : option Z;
  pl_assignees : option (list string) }.

(** The requests the script sends, indexed by the type of the document a
    successful answer carries. *)
Inductive Request : Type → Type :=
| GET_milestones (owner repo : string) : Request (list Milestone)
    (* .../milestones?state=all&per_page=100 *)
| POST_milestones (owner repo title state : string) : Request Milestone
| GET_labels (owner repo : string) (page : Z) : Request (list Label)
    (* .../labels?per_page=100&page={page} *)
| POST_labels (owner repo name color : string) : Request Label
| POST_issues (owner repo : string) (payload : Payload) : Request Issue
| GET_issue (owner repo : string) (number : IssueRef) : Request Issue
| PATCH_issue (owner repo : string) (number : IssueRef) (body : string)
    : Request Issue.

Inductive Response (A : Type) : Type :=
| Success (doc : A)
| Failure (status : Z).
Arguments Success {A} doc.
Arguments Failure {A} status.

(** State of the repository on the service.  Lists are in the order in which
    the service lists them. *)
Record Remote := {
  milestones : list Milestone;
  next_milestone : Z;
  remote_labels : list Label;
  issues : list Issue;
  next_issue : Z }.

(** Page [page] (from 1) of a listing with [per_page] entries a page. *)
Definition page_of {A} (per_page : nat) (page : Z) (l : list A) : list A :=
  if page <? 1 then []
  else firstn per_page (skipn (per_page * Z.to_nat (page - 1)) l).

Definition find_issue (v : IssueRef) (l : list Issue) : option Issue :=
  match v with
  | Number n => List.find (λ i, is_number i =? n) l
  | Placeholder _ => None
  end.

Definition set_body (n : Z) (b : string) (l : list Issue) : list Issue :=
  map (λ i, if is_number i =? n
            then {| is_number := is_number i; is_title := is_title i;
                    is_body := Some b; is_labels := is_labels i;
                    is_milestone := is_milestone i;
                    is_assignees := is_assignees i |}
            else i) l.

(** The remote issue-tracking service, which is outside the repository, as
    section 6 of the specification and the requests of the script describe
    it.  Listings come in pages of 100, the [per_page] of the script; a
    created milestone or issue receives the next free number; a label whose
    name is taken is refused; an update of [body] replaces the whole body.
    What else the service may do to a request is the matter of [Fault]. *)
Definition serve {A} (req : Request A) (rm : Remote) : Response A * Remote :=
  match req in Request A return Response A * Remote with
  | GET_milestones _ _ => (Success (page_of 100 1 (milestones rm)), rm)
  | POST_milestones _ _ title state =>
      let m := {| ms_number := next_milestone rm; ms_title := title;
                  ms_state := state |} in
      (Success m,
       {| milestones := milestones rm ++ [m];
          next_milestone := next_milestone rm + 1;
          remote_labels := remote_labels rm; issues := issues rm;
          next_issue := next_issue rm |})
  | GET_labels _ _ page => (Success (page_of 100 page (remote_labels rm)), rm)
  | POST_labels _ _ name color =>
      if existsb (λ l, String.eqb (lb_name l) name) (remote_labels rm)
      then (Failure 422, rm)
      else
        let l := {| lb_name := name; lb_color := color |} in
        (Success l,
         {| milestones := milestones rm; next_milestone := next_milestone rm;
            remote_labels := remote_labels rm ++ [l]; issues := issues rm;
            next_issue := next_issue rm |})
  | POST_issues _ _ p =>
      let i := {| is_number := next_issue rm; is_title := pl_title p;
                  is_body := Some (pl_body p);
                  is_labels := default [] (pl_labels p);
                  is_milestone := pl_milestone p;
                  is_assignees := default [] (pl_assignees p) |} in
      (Success i,
       {| milestones := milestones rm; next_milestone := next_milestone rm;
          remote_labels := remote_labels rm; issues := issues rm ++ [i];
          next_issue := next_issue rm + 1 |})
  | GET_issue _ _ number =>
      match find_issue number (issues rm) with
      | Some i => (Success i, rm)
      | None => (Failure 404, rm)
      end
  | PATCH_issue _ _ number b =>
      match number, find_issue number (issues rm) with
      | Number n, Some i =>
          (Success {| is_number := is_number i; is_title := is_title i;
                      is_body := Some b; is_labels := is_labels i;
                      is_milestone := is_milestone i;
                      is_assignees := is_assignees i |},
           {| milestones := milestones rm; next_milestone := next_milestone rm;
              remote_labels := remote_labels rm;
              issues := set_body n b (issues rm);
              next_issue := next_issue rm |})
      | _, _ => (Failure 404, rm)
      end
  end.

(** ** The world *)

(** What befalls a request, whatever the state of the service. *)
Inductive Fault : Type :=
| NoFault
| Unreachable                       (* [requests] raises *)
| Status (code : Z).                (* the service answers with an error *)

Record Headers := {
  Authorization : string;
  Accept : string;
  X_GitHub_Api_Version : string;
  Content_Type : string }.

Inductive AnyRequest : Type :=
| Sent {A} (req : Request A).

(** One entry of the transcript: the request and whether it failed. *)
Record Exchange := {
  x_headers : Headers;
  x_request : AnyRequest;
  x_error : option Exn }.

(** A printed line: the f-string it comes from and the values it
    interpolates. *)
Inductive Line : Type :=
| EnvMissing
    (* GITHUB_REPOSITORY and GITHUB_TOKEN must be set *)
| Loaded (n : nat) (path : string)
    (* Loaded {len(rows)} rows from {args.csv} *)
| DryMilestone (name : string)
    (* [DRY RUN] would ensure milestone '{args.milestone}' *)
| DryLabels (all_labels : gset string)
    (* [DRY RUN] would ensure labels: {sorted(all_labels)} *)
| DryIssue (api_title : string) (labels : list string)
    (* [DRY RUN] Would create issue: {api_title} | labels={labels} *)
| Created (number : Z) (api_title : string)
    (* Created #{issue['number']}: {api_title} *)
| DrySkipping
    (* [DRY RUN] Skipping linking and body updates *)
| LabelWarning (name : string) (e : Exn).
    (* WARNING: could not create label '{name}': {e} *)

Record World := {
  environ : gmap string string;            (* [os.environ] *)
  files : gmap string (list (list string));
    (* for each readable path, the records [csv.reader] yields *)
  remote : Remote;
  faults : list Fault;
    (* what befalls the coming requests, in order; nothing once used up *)
  transcript : list Exchange;              (* the requests sent so far *)
  stdout : list Line;
  stderr : list Line }.

(** Effectful computations: they may change the world, and end with a value
    or an exception. *)
Definition M (A : Type) : Type := World → Result A * World.

Global Instance M_ret : MRet M := λ A a w, (Ok a, w).
Global Instance M_bind : MBind M := λ A B k m w,
  match m w with
  | (Ok a, w1) => k a w1
  | (Raise e, w1) => (Raise e, w1)
  | (OutOfFuel, w1) => (OutOfFuel, w1)
  end.

Definition raise {A} (e : Exn) : M A := λ w, (Raise e, w).
Definition out_of_fuel {A} : M A := λ w, (OutOfFuel, w).
Definition lift {A} (r : Result A) : M A := λ w, (r, w).

(** [try: m except Exception as e: handler e]. *)
Definition try_except {A} (m : M A) (handler : Exn → M A) : M A := λ w,
  match m w with
  | (Raise e, w1) => if is_Exception e then handler e w1 else (Raise e, w1)
  | other => other
  end.

(** [for x in l: f x]. *)
Fixpoint for_each {A} (l : list A) (f : A → M unit) : M unit :=
  match l with
  | [] => mret tt
  | x :: l => f x;; for_each l f
  end.

(** A loop that updates local variables: their values are passed along. *)
Fixpoint for_fold {A S} (l : list A) (f : S → A → M S) (s : S) : M S :=
  match l with
  | [] => mret s
  | x :: l => s1 ← f s x; for_fold l f s1
  end.

Definition print (ln : Line) : M unit := λ w,
  (Ok tt,
   {| environ := environ w; files := files w; remote := remote w;
      faults := faults w; transcript := transcript w;
      stdout := stdout w ++ [ln]; stderr := stderr w |}).

Definition print_stderr (ln : Line) : M unit := λ w,
  (Ok tt,
   {| environ := environ w; files := files w; remote := remote w;
      faults := faults w; transcript := transcript w;
      stdout := stdout w; stderr := stderr w ++ [ln] |}).

Definition os_environ_get (k : string) : M (option string) := λ w,
  (Ok (environ w !! k), w).

Definition sys_exit {A} (code : Z) : M A := raise (SystemExit code).

(** The world after a request: the fault is used up, the exchange is on the
    transcript and the service is in state [rm]. *)
Definition exchanged (w : World) (rm : Remote) (x : Exchange) : World :=
  {| environ := environ w; files := files w; remote := rm;
     faults := tail (faults w); transcript := transcript w ++ [x];
     stdout := stdout w; stderr := stderr w |}.

Definition error_of {A} (r : Response A) : option Exn :=
  match r with Success _ => None | Failure c => Some (HTTPError c) end.

(** [requests.get], [requests.post] and [requests.patch]: the method is part
    of the request. *)
Definition requests_send {A} (headers : Headers) (req : Request A)
  : M (Response A) := λ w,
  match head (faults w) with
  | Some Unreachable =>
      (Raise ConnectionError,
       exchanged w (remote w)
         {| x_headers := headers; x_request := Sent req;
            x_error := Some ConnectionError |})
  | Some (Status c) =>
      (Ok (Failure c),
       exchanged w (remote w)
         {| x_headers := headers; x_request := Sent req;
            x_error := Some (HTTPError c) |})
  | Some NoFault | None =>
      let '(r, rm) := serve req (remote w) in
      (Ok r,
       exchanged w rm
         {| x_headers := headers; x_request := Sent req;
            x_error := error_of r |})
  end.

Definition raise_for_status {A} (r : Response A) : M unit :=
  match r with Success _ => mret tt | Failure c => raise (HTTPError c) end.

Definition json {A} (r : Response A) : M A :=
  match r with Success doc => mret doc | Failure _ => raise JSONDecodeError end.

(** ** The functions of the script *)

Definition gh_headers (token : string) : Headers :=
  {| Authorization := "Bearer " +:+ token;
     Accept := "application/vnd.github+json";
     X_GitHub_Api_Version := "2022-11-28";
     Content_Type := "application/json" |}.

Definition ensure_milestone (owner repo name token : string) : M Z :=
  r ← requests_send (gh_headers token) (GET_milestones owner repo);
  raise_for_status r;;
  ms ← json r;
  match List.find (λ m, String.eqb (ms_title m) name) ms with
  | Some m => mret (ms_number m)
  | None =>
      r ← requests_send (gh_headers token)
            (POST_milestones owner repo name "open");
      raise_for_status r;;
      m ← json r;
      mret (ms_number m)
  end.

(** The loop [while True] of [list_labels], cut after [fuel] pages. *)
Fixpoint list_labels_from (fuel : nat) (owner repo token : string)
    (labels : gmap string string) (page : Z) : M (gmap string string) :=
  match fuel with
  | O => out_of_fuel
  | S fuel =>
      r ← requests_send (gh_headers token) (GET_labels owner repo page);
      raise_for_status r;;
      data ← json r;
      match data with
      | [] => mret labels
      | _ :: _ =>
          let labels :=
            foldl (λ labels l, <[lb_name l := lb_color l]> labels) labels data in
          list_labels_from fuel owner repo token labels (page + 1)
      end
  end.

Definition list_labels (fuel : nat) (owner repo token : string)
  : M (gmap string string) :=
  list_labels_from fuel owner repo token ∅ 1.

(** The list [to_create] of [ensure_labels]; [wanted] is the set of wanted
    names in the order in which Python iterates over it. *)
Definition to_create (wanted : list string) (existing : gmap string string)
  : list string :=
  List.filter (λ w, truthy w && bool_decide (existing !! w = None)) wanted.

Definition ensure_labels (fuel : nat) (owner repo token : string)
    (wanted : list string) : M unit :=
  existing ← list_labels fuel owner repo token;
  for_each (to_create wanted existing) (λ name,
    let color := "ededed" in
    try_except
      (r ← requests_send (gh_headers token) (POST_labels owner repo name color);
       raise_for_status r)
      (λ e, print_stderr (LabelWarning name e))).

Definition create_issue (owner repo token title body : string)
    (labels : list string) (milestone_number : option Z)
    (assignees : list string) : M Issue :=
  let payload :=
    {| pl_title := title;
       pl_body := body;
       pl_labels := match labels with [] => None | _ :: _ => Some labels end;
       pl_milestone :=
         match milestone_number with
         | Some n => if n =? 0 then None else Some n
         | None => None
         end;
       pl_assignees :=
         match assignees with [] => None | _ :: _ => Some assignees end |} in
  r ← requests_send (gh_headers token) (POST_issues owner repo payload);
  raise_for_status r;;
  json r.

(** [update_issue(owner, repo, token, number, body=...)]: [body] is the only
    field the script passes. *)
Definition update_issue (owner repo token : string) (number : IssueRef)
    (body : string) : M Issue :=
  r ← requests_send (gh_headers token) (PATCH_issue owner repo number body);
  raise_for_status r;;
  json r.

(** *** [parse_csv] *)

(** A dictionary of [csv.DictReader]: the cells under their column names, in
    the order of the header, [None] for a column the record is too short
    for; and the surplus cells of a record longer than the header, which
    are stored as one list under the key [None]. *)
Record DictRow := {
  cells : list (string * option string);
  surplus : list string }.

Fixpoint zip_cells (fieldnames row : list string)
  : list (string * option string) :=
  match fieldnames, row with
  | [], _ => []
  | k :: fieldnames, [] => (k, None) :: zip_cells fieldnames []
  | k :: fieldnames, v :: row => (k, Some v) :: zip_cells fieldnames row
  end.

(** [csv.DictReader] of the Python library: the first record is the
    header; empty records are skipped. *)
Definition DictReader (records : list (list string)) : list DictRow :=
  match records with
  | [] => []
  | fieldnames :: records =>
      map (λ row, {| cells := zip_cells fieldnames row;
                     surplus := skipn (length fieldnames) row |})
          (List.filter (λ row, match row with [] => false | _ => true end)
                       records)
  end.

(** [{k: (v or '').strip() for k, v in row.items()}]: a later cell of the
    same name replaces an earlier one; the list of surplus cells has no
    [strip]. *)
Definition stripped (row : DictRow) : Result Row :=
  let d := foldl (λ d kv, <[kv.1 := strip (default "" kv.2)]> d) ∅ (cells row) in
  match surplus row with
  | [] => Ok d
  | _ :: _ => Raise AttributeError
  end.

Fixpoint stripped_rows (reader : list DictRow) : Result (list Row) :=
  match reader with
  | [] => Ok []
  | row :: reader =>
      r ← stripped row; rows ← stripped_rows reader; Ok (r :: rows)
  end.

Definition parse_csv (path : string) : M (list Row) := λ w,
  match files w !! path with
  | None => (Raise (FileNotFoundError path), w)
  | Some records => (stripped_rows (DictReader records), w)
  end.

(** *** [main] *)

(** What [argparse] returns. *)
Record Args := {
  csv : string;
  milestone : string;
  assignee : string;
  dry_run : bool }.

(** [s.split(sep, 1)]: cut at the first separator only. *)
Fixpoint split_first (sep : ascii) (s : string) : list string :=
  match s with
  | EmptyString => [EmptyString]
  | String c s1 =>
      if Ascii.eqb c sep then [EmptyString; s1]
      else match split_first sep s1 with
           | piece :: pieces => String c piece :: pieces
           | [] => [String c EmptyString]
           end
  end.

(** [a, b = l]. *)
Definition unpack2 (l : list string) : Result (string * string) :=
  match l with
  | [a; b] => Ok (a, b)
  | _ => Raise ValueError
  end.

(** The set [all_labels] (lines 92 to 98). *)
Definition all_labels (rows : list Row) : gset string :=
  foldl (λ (all_labels : gset string) (r : Row),
    let all_labels :=
      if truthy_opt (r !! "Labels")
      then foldl (λ (all_labels : gset string) lab,
                    if truthy lab then all_labels ∪ {[lab]} else all_labels)
             all_labels
             (map strip (split_on is_comma (get_or_empty r "Labels")))
      else all_labels in
    let all_labels :=
      if truthy_opt (r !! "Type")
      then all_labels ∪ {[get_or_empty r "Type"]} else all_labels in
    if truthy_opt (r !! "Priority")
    then all_labels ∪ {[get_or_empty r "Priority"]} else all_labels)
  ∅ rows.

(** The three dictionaries of [main].  A local identifier is what
    [r.get("ID")] returns: a string, or [None] when the file has no ID
    column.  [parent_to_children] is kept in insertion order, the order in
    which [items()] goes through it. *)
Record Maps := {
  id_to_issue : gmap (option string) IssueRef;
  parent_to_children : list (string * list (option string));
  deps_map : gmap (option string) (list string) }.

Definition no_maps : Maps :=
  {| id_to_issue := ∅; parent_to_children := []; deps_map := ∅ |}.

(** [parent_to_children[parent].append(iid)] on a [defaultdict(list)]. *)
Fixpoint append_child (parent : string) (iid : option string)
    (d : list (string * list (option string)))
  : list (string * list (option string)) :=
  match d with
  | [] => [(parent, [iid])]
  | (p, children) :: d =>
      if String.eqb p parent then (p, children ++ [iid]) :: d
      else (p, children) :: append_child parent iid d
  end.

(** The entry of a parent, empty when it has none. *)
Fixpoint children_of (d : list (string * list (option string)))
    (parent : string) : list (option string) :=
  match d with
  | [] => []
  | (p, children) :: d =>
      if String.eqb p parent then children else children_of d parent
  end.

(** The title sent to the service (lines 118 and 150). *)
Definition api_title (r : Row) : string := or_else (r !! "Title") "(no title)".

(** One turn of the first loop over the rows (lines 116 to 157). *)
Definition create_row (args : Args) (owner repo token : string)
    (milestone_number : option Z) (st : Maps) (r : Row) : M Maps :=
  let iid := r !! "ID" in
  let parent := get_or_empty r "ParentID" in
  let body := row_body r (milestone args) in
  let labels := labels r in
  let deps := deps r in
  let deps_map :=
    match deps with
    | [] => deps_map st
    | _ :: _ => <[iid := deps]> (deps_map st)
    end in
  let parent_to_children :=
    if truthy parent then append_child parent iid (parent_to_children st)
    else parent_to_children st in
  let api_title := api_title r in
  if dry_run args then
    print (DryIssue api_title labels);;
    mret {| id_to_issue :=
              <[iid := Placeholder ("DRY-" +:+ fmt_opt iid)]> (id_to_issue st);
            parent_to_children := parent_to_children;
            deps_map := deps_map |}
  else
    issue ← create_issue owner repo token api_title body labels
              milestone_number
              (if truthy (assignee args) then [assignee args] else []);
    print (Created (is_number issue) api_title);;
    mret {| id_to_issue := <[iid := Number (is_number issue)]> (id_to_issue st);
            parent_to_children := parent_to_children;
            deps_map := deps_map |}.

Definition first_pass (args : Args) (owner repo token : string)
    (milestone_number : option Z) (rows : list Row) : M Maps :=
  for_fold rows (create_row args owner repo token milestone_number) no_maps.

(** The list [issue_refs] (line 172). *)
Fixpoint issue_refs (id_to_issue : gmap (option string) IssueRef)
    (deps : list string) : Result (list string) :=
  match deps with
  | [] => Ok []
  | d :: deps =>
      if bool_decide (is_Some (id_to_issue !! Some d)) then
        v ← getitem id_to_issue (Some d) d;
        refs ← issue_refs id_to_issue deps;
        Ok (("#" +:+ fmt_ref v) :: refs)
      else issue_refs id_to_issue deps
  end.

(** What the branch [if deps:] appends to [extra] (lines 171 to 174). *)
Definition dependencies_block (id_to_issue : gmap (option string) IssueRef)
    (deps : list string) : Result string :=
  match deps with
  | [] => Ok ""
  | _ :: _ =>
      issue_refs ← issue_refs id_to_issue deps;
      match issue_refs with
      | [] => Ok ""
      | _ :: _ =>
          Ok (nl +:+ nl +:+ "### Dependencies" +:+ nl +:+
              join nl (map (λ ref, "- [ ] Blocked by " +:+ ref) issue_refs))
      end
  end.

(** What the test on [parent] appends to [extra] (lines 176 to 178). *)
Definition parent_line (id_to_issue : gmap (option string) IssueRef)
    (parent : string) : Result string :=
  if truthy parent && bool_decide (is_Some (id_to_issue !! Some parent)) then
    v ← getitem id_to_issue (Some parent) parent;
    Ok (nl +:+ nl +:+ "**Parent:** #" +:+ fmt_ref v)
  else Ok "".

(** The string [extra] (lines 170 to 178). *)
Definition extra (id_to_issue : gmap (option string) IssueRef)
    (deps : list string) (parent : string) : Result string :=
  let extra := "" in
  block ← dependencies_block id_to_issue deps;
  let extra := extra +:+ block in
  line ← parent_line id_to_issue parent;
  Ok (extra +:+ line).

(** One turn of the second loop over the rows (lines 164 to 184). *)
Definition link_row (owner repo token : string) (st : Maps) (r : Row)
  : M unit :=
  let iid := r !! "ID" in
  match id_to_issue st !! iid with
  | None => mret tt
  | Some issue_number =>
      if negb (truthy_ref issue_number) then mret tt
      else
        let deps := default [] (deps_map st !! iid) in
        extra ← lift (extra (id_to_issue st) deps (get_or_empty r "ParentID"));
        if truthy extra then
          get_r ← requests_send (gh_headers token)
                    (GET_issue owner repo issue_number);
          raise_for_status get_r;;
          current ← json get_r;
          let current_body := or_else (is_body current) "" in
          update_issue owner repo token issue_number (current_body +:+ extra);;
          mret tt
        else mret tt
  end.

(** [next((r["Title"] for r in rows if r["ID"] == child_id), fallback)]
    (line 197). *)
Fixpoint ct (rows : list Row) (child_id : option string) (fallback : string)
  : Result string :=
  match rows with
  | [] => Ok fallback
  | r :: rows =>
      id ← getitem r "ID" "ID";
      if bool_decide (Some id = child_id) then getitem r "Title" "Title"
      else ct rows child_id fallback
  end.

(** The list [lines] of a parent (lines 194 to 198). *)
Definition subtask_lines (rows : list Row)
    (id_to_issue : gmap (option string) IssueRef)
    (children : list (option string)) : Result (list string) :=
  foldl (λ (acc : Result (list string)) child_id,
    lines ← acc;
    let child_num := id_to_issue !! child_id in
    ct ← ct rows child_id ("Issue " +:+ fmt_ref_opt child_num);
    Ok (lines ++ ["- [ ] #" +:+ fmt_ref_opt child_num +:+ " — " +:+ ct]))
  (Ok [nl +:+ nl +:+ "### Subtasks"]) children.

(** One turn of the loop over [parent_to_children.items()] (lines 187 to
    199). *)
Definition link_parent (owner repo token : string) (rows : list Row)
    (st : Maps) (item : string * list (option string)) : M unit :=
  let '(parent_id, children) := item in
  match id_to_issue st !! Some parent_id with
  | None => mret tt
  | Some parent_num =>
      if negb (truthy_ref parent_num) then mret tt
      else
        get_r ← requests_send (gh_headers token)
                  (GET_issue owner repo parent_num);
        raise_for_status get_r;;
        current ← json get_r;
        let current_body := or_else (is_body current) "" in
        lines ← lift (subtask_lines rows (id_to_issue st) children);
        update_issue owner repo token parent_num
          (current_body +:+ join nl lines);;
        mret tt
  end.

(** [main], after [argparse]; [fuel] bounds the page loop of
    [list_labels]. *)
Definition main (fuel : nat) (args : Args) : M unit :=
  repo_full ← os_environ_get "GITHUB_REPOSITORY";
  token ← os_environ_get "GITHUB_TOKEN";
  if negb (truthy_opt repo_full) || negb (truthy_opt token) then
    print_stderr EnvMissing;;
    sys_exit 1
  else
    let token := default "" token in
    pair ← lift (unpack2 (split_first "/" (default "" repo_full)));
    let '(owner, repo) := pair in
    rows ← parse_csv (csv args);
    print (Loaded (length rows) (csv args));;
    let all_labels := all_labels rows in
    milestone_number ←
      (if truthy (milestone args) then
         if negb (dry_run args) then
           n ← ensure_milestone owner repo (milestone args) token;
           mret (Some n)
         else
           print (DryMilestone (milestone args));;
           mret None
       else mret None);
    (if negb (dry_run args) then
       ensure_labels fuel owner repo token (elements all_labels)
     else print (DryLabels all_labels));;
    st ← first_pass args owner repo token milestone_number rows;
    if dry_run args then
      print DrySkipping
    else
      for_each rows (link_row owner repo token st);;
      for_each (parent_to_children st) (link_parent owner repo token rows st).

(** ** Observing a run *)

(** The warnings that the failed label creations among [xs] give rise to. *)
Definition label_warning (x : Exchange) : option Line :=
  match x_request x, x_error x with
  | Sent req, Some e =>
      match req with
      | POST_labels _ _ name _ => Some (LabelWarning name e)
      | _ => None
      end
  | _, None => None
  end.

Definition label_warnings (xs : list Exchange) : list Line :=
  omap label_warning xs.

(** A computation is quiet when it sends nothing: the transcript, the
    service and the pending faults are after it what they were before. *)
Definition quiet {A} (m : M A) : Prop :=
  ∀ w, transcript (m w).2 = transcript w
       ∧ remote (m w).2 = remote w
       ∧ faults (m w).2 = faults w.

(** The world [w] after the lines [out] have been printed. *)
Definition printed (w : World) (out : list Line) : World :=
  {| environ := environ w; files := files w; remote := remote w;
     faults := faults w; transcript := transcript w;
     stdout := stdout w ++ out; stderr := stderr w |}.

(** What a dry run prints once the rows are loaded. *)
Definition dry_lines (args : Args) (rows : list Row) : list Line :=
  [Loaded (length rows) (csv args)]
  ++ (if truthy (milestone args) then [DryMilestone (milestone args)] else [])
  ++ [DryLabels (all_labels rows)]
  ++ map (λ r, DryIssue (api_title r) (labels r)) rows
  ++ [DrySkipping].

(** The placeholder of a row in a dry run: [f"DRY-{iid}"] (line 153). *)
Definition placeholder (r : Row) : IssueRef :=
  Placeholder ("DRY-" +:+ fmt_opt (r !! "ID")).

(** The world [w] after the lines [err] have been printed on the error
    stream. *)
Definition complained (w : World) (err : list Line) : World :=
  {| environ := environ w; files := files w; remote := remote w;
     faults := faults w; transcript := transcript w;
     stdout := stdout w; stderr := stderr w ++ err |}.

(** The characters of [s] do not include [c]. *)
Definition without (c : ascii) (s : string) : Prop :=
  ¬ In c (list_ascii_of_string s).

(** No fault is pending: every coming request reaches the service. *)
Definition fault_free (w : World) : Prop :=
  Forall (λ f, f = NoFault) (faults w).

(** The dictionary [list_labels] builds from a listing. *)
Definition label_colors (acc : gmap string string) (l : list Label)
  : gmap string string :=
  foldl (λ labels l, <[lb_name l := lb_color l]> labels) acc l.

(** The labels of a repository after the creation of labels named [names]
    has been asked for, one after the other: a name that is taken is
    refused. *)
Definition add_labels (l : list Label) (names : list string) : list Label :=
  foldl (λ l name,
           if existsb (λ x, String.eqb (lb_name x) name) l then l
           else l ++ [{| lb_name := name; lb_color := "ededed" |}])
        l names.

(** The first [n] coming requests reach the service. *)
Definition calm (n : nat) (w : World) : Prop :=
  Forall (λ f, f = NoFault) (firstn n (faults w)).

(** The issue the service makes of row [r] when it gives it the number
    [n]. *)
Definition issue_of (args : Args) (milestone_number : option Z) (n : Z)
    (r : Row) : Issue :=
  {| is_number := n;
     is_title := api_title r;
     is_body := Some (row_body r (milestone args));
     is_labels := labels r;
     is_milestone :=
       match milestone_number with
       | Some m => if m =? 0 then None else Some m
       | None => None
       end;
     is_assignees := if truthy (assignee args) then [assignee args] else [] |}.

(** The issues of the rows [rows], numbered from [n] on. *)
Fixpoint issues_of (args : Args) (milestone_number : option Z) (n : Z)
    (rows : list Row) : list Issue :=
  match rows with
  | [] => []
  | r :: rows =>
      issue_of args milestone_number n r
      :: issues_of args milestone_number (n + 1) rows
  end.

(** The repository a request is addressed to: its owner and its name. *)
Definition target (a : AnyRequest) : string * string :=
  match a with
  | Sent req =>
      match req with
      | GET_milestones owner repo => (owner, repo)
      | POST_milestones owner repo _ _ => (owner, repo)
      | GET_labels owner repo _ => (owner, repo)
      | POST_labels owner repo _ _ => (owner, repo)
      | POST_issues owner repo _ => (owner, repo)
      | GET_issue owner repo _ => (owner, repo)
      | PATCH_issue owner repo _ _ => (owner, repo)
      end
  end.

(** The exchange [x] is addressed to the repository [owner]/[repo] and
    carries the headers made of [token]. *)
Definition sent_to (owner repo token : string) (x : Exchange) : Prop :=
  x_headers x = gh_headers token ∧ target (x_request x) = (owner, repo).

(** A computation is polite, for a property [ok] of exchanges, when it
    leaves the environment and the files alone, takes nothing off the
    transcript and every exchange it adds to it is [ok]. *)
Definition polite (ok : Exchange → Prop) {A} (m : M A) : Prop :=
  ∀ w, environ (m w).2 = environ w
       ∧ files (m w).2 = files w
       ∧ ∃ xs, transcript (m w).2 = transcript w ++ xs ∧ Forall ok xs.

(** ** Sample inputs *)

Definition row_bug : Row :=
  <["Type" := "bug"]> (<["Priority" := "P1"]> (<["Estimate" := "3"]>
    (<["Description" := "Fix it"]> ∅))).

Definition row_no_meta : Row := <["Description" := "Fix it"]> ∅.

Definition row_with_deps (d : string) : Row := <["Dependencies" := d]> ∅.

(** A row given by its cells. *)
Definition mk_row (cells : list (string * string)) : Row :=
  foldl (λ (d : Row) kv, <[kv.1 := kv.2]> d) ∅ cells.

(** The three rows of the end-to-end example of the specification: P1, then
    P2 and P3 with parent P1, P3 depending on P2. *)
Definition sample_records : list (list string) :=
  [ ["ID"; "Title"; "ParentID"; "Dependencies"];
    ["P1"; "Epic"; ""; ""];
    ["P2"; "Child a"; "P1"; ""];
    ["P3"; "Child b"; "P1"; "P2"] ].

Definition row_P1 : Row :=
  mk_row [("ID", "P1"); ("Title", "Epic"); ("ParentID", "");
          ("Dependencies", "")].

Definition row_P2 : Row :=
  mk_row [("ID", "P2"); ("Title", "Child a"); ("ParentID", "P1");
          ("Dependencies", "")].

Definition row_P3 : Row :=
  mk_row [("ID", "P3"); ("Title", "Child b"); ("ParentID", "P1");
          ("Dependencies", "P2")].

Definition sample_rows : list Row := [row_P1; row_P2; row_P3].

Definition empty_remote : Remote :=
  {| milestones := []; next_milestone := 1; remote_labels := [];
     issues := []; next_issue := 1 |}.

Definition sample_world : World :=
  {| environ := <["GITHUB_REPOSITORY" := "acme/app"]>
                  (<["GITHUB_TOKEN" := "secret"]> ∅);
     files := <["/tmp/issues.csv" := sample_records]> ∅;
     remote := empty_remote;
     faults := []; transcript := []; stdout := []; stderr := [] |}.

Definition dry_args : Args :=
  {| csv := "/tmp/issues.csv"; milestone := "Sprint 1"; assignee := "";
     dry_run := true |}.

Definition real_args : Args :=
  {| csv := "/tmp/issues.csv"; milestone := "Sprint 1"; assignee := "";
     dry_run := false |}.

Definition sample_map : gmap (option string) IssueRef :=
  <[Some "A" := Number 7]> ∅.

(** Two rows with the same local identifier. *)
Definition twin_rows : list Row :=
  [ mk_row [("ID", "A"); ("Title", "first")];
    mk_row [("ID", "A"); ("Title", "second")] ].

(** A row without title. *)
Definition untitled_row : Row := mk_row [("ID", "U1"); ("Title", "")].

(** A world in which the second request fails: the listing of the labels
    goes through, the first creation of a label does not. *)
Definition flaky_world : World :=
  {| environ := environ sample_world; files := files sample_world;
     remote := empty_remote;
     faults := [NoFault; Status 500];
     transcript := []; stdout := []; stderr := [] |}.

(** A repository with 101 milestones: a hundred closed ones, then the
    milestone [Sprint 1], which the service lists on the second page. *)
Definition old_milestone (i : nat) : Milestone :=
  {| ms_number := Z.of_nat (S i);
     ms_title := "old-" +:+ pretty (S i);
     ms_state := "closed" |}.

Definition sprint_1 : Milestone :=
  {| ms_number := 101; ms_title := "Sprint 1"; ms_state := "open" |}.

Definition crowded_world : World :=
  {| environ := environ sample_world; files := files sample_world;
     remote := {| milestones := map old_milestone (seq 0 100) ++ [sprint_1];
                  next_milestone := 102; remote_labels := [];
                  issues := []; next_issue := 1 |};
     faults := []; transcript := []; stdout := []; stderr := [] |}.

(** The same repository, with a service that refuses to create a milestone
    whose title is taken, as GitHub does. *)
Definition refusing_world : World :=
  {| environ := environ crowded_world; files := files crowded_world;
     remote := remote crowded_world;
     faults := [NoFault; Status 422];
     transcript := []; stdout := []; stderr := [] |}.

(** A repository where [Sprint 1] is the only milestone. *)
Definition sprint_world : World :=
  {| environ := environ sample_world; files := files sample_world;
     remote := {| milestones := [sprint_1]; next_milestone := 102;
                  remote_labels := []; issues := []; next_issue := 1 |};
     faults := []; transcript := []; stdout := []; stderr := [] |}.

(** A file whose second record is shorter than the header and whose third
    record is empty. *)
Definition short_records : list (list string) :=
  [ ["ID"; "Title"; "Labels"]; ["S1"; " Short "]; []; ["S2"; "Two"; "x"] ].

(** A file whose record has one cell more than the header. *)
Definition long_records : list (list string) :=
  [ ["ID"; "Title"]; ["L1"; "Long"; "surplus"] ].

(** The sample world with the files above, and without the token. *)
Definition files_world : World :=
  {| environ := environ sample_world;
     files := <["/tmp/short.csv" := short_records]>
                (<["/tmp/long.csv" := long_records]> (files sample_world));
     remote := empty_remote;
     faults := []; transcript := []; stdout := []; stderr := [] |}.

Definition no_token_world : World :=
  {| environ := <["GITHUB_REPOSITORY" := "acme/app"]> ∅;
     files := files sample_world; remote := empty_remote;
     faults := []; transcript := []; stdout := []; stderr := [] |}.

Definition no_slash_world : World :=
  {| environ := <["GITHUB_REPOSITORY" := "acme"]>
                  (<["GITHUB_TOKEN" := "secret"]> ∅);
     files := files sample_world; remote := empty_remote;
     faults := []; transcript := []; stdout := []; stderr := [] |}.

Definition nested_world : World :=
  {| environ := <["GITHUB_REPOSITORY" := "acme/app/x"]>
                  (<["GITHUB_TOKEN" := "secret"]> ∅);
     files := files sample_world; remote := empty_remote;
     faults := []; transcript := []; stdout := []; stderr := [] |}.

(** A repository with 250 labels, which the service lists on three pages. *)
Definition numbered_label (i : nat) : Label :=
  {| lb_name := "label-" +:+ pretty i; lb_color := "ededed" |}.

Definition labelled_world : World :=
  {| environ := environ sample_world; files := files sample_world;
     remote := {| milestones := []; next_milestone := 1;
                  remote_labels := map numbered_label (seq 0 250);
                  issues := []; next_issue := 1 |};
     faults := []; transcript := []; stdout := []; stderr := [] |}.

(** A world whose first request is answered with an error. *)
Definition failing_world : World :=
  {| environ := environ sample_world; files := files sample_world;
     remote := remote sprint_world;
     faults := [Status 503];
     transcript := []; stdout := []; stderr := [] |}.

(** A world in which the third request fails. *)
Definition third_fails_world : World :=
  {| environ := environ sample_world; files := files sample_world;
     remote := empty_remote;
     faults := [NoFault; NoFault; Status 502];
     transcript := []; stdout := []; stderr := [] |}.

(** A repository with two issues, and the dictionaries of a run that
    created them for the rows A and B, A depending on B and on a row that
    was never created. *)
Definition row_A : Row :=
  mk_row [("ID", "A"); ("Title", "First"); ("ParentID", "")].

Definition linked_world : World :=
  {| environ := environ sample_world; files := files sample_world;
     remote := {| milestones := []; next_milestone := 1; remote_labels := [];
                  issues := [ {| is_number := 1; is_title := "First";
                                 is_body := Some "old body";
                                 is_labels := []; is_milestone := None;
                                 is_assignees := [] |};
                              {| is_number := 2; is_title := "Second";
                                 is_body := None;
                                 is_labels := []; is_milestone := None;
                                 is_assignees := [] |} ];
                  next_issue := 3 |};
     faults := []; transcript := []; stdout := []; stderr := [] |}.

Definition linked_maps : Maps :=
  {| id_to_issue := <[Some "A" := Number 1]> (<[Some "B" := Number 2]> ∅);
     parent_to_children := [];
     deps_map := <[Some "A" := ["B"; "ghost"]]> ∅ |}.

(** The rows of a file that has no Title column. *)
Definition untitled_rows : list Row :=
  [ mk_row [("ID", "P1"); ("ParentID", "")];
    mk_row [("ID", "P2"); ("ParentID", "P1")] ].

(** ** Invariants of the creation pass *)

(** After the rows [seen], the keys of the Parent-to-Children map are
    distinct and the entry of a parent holds the ids of the rows of [seen]
    that name it, in order. *)
Definition children_invariant (seen : list Row) (st : Maps) : Prop :=
  NoDup (map fst (parent_to_children st))
  ∧ ∀ parent, parent ≠ "" →
      children_of (parent_to_children st) parent
      = map (λ r : Row, r !! "ID")
          (List.filter
             (λ r, String.eqb (get_or_empty r "ParentID") parent) seen).

(** After the rows [seen], every child recorded in the Parent-to-Children
    map and every key of the Local-to-Remote Map is the ID of a row of
    [seen]. *)
Definition ids_invariant (seen : list Row) (st : Maps) : Prop :=
  (∀ p ch c, (p, ch) ∈ parent_to_children st → c ∈ ch →
             ∃ r : Row, r ∈ seen ∧ r !! "ID" = c)
  ∧ (∀ k, is_Some (id_to_issue st !! k) → ∃ r : Row, r ∈ seen ∧ r !! "ID" = k).

(** After the rows [seen], every key of the Dependency Map is the ID of a
    row of [seen]. *)
Definition deps_invariant (seen : list Row) (st : Maps) : Prop :=
  ∀ k, is_Some (deps_map st !! k) → ∃ r : Row, r ∈ seen ∧ r !! "ID" = k.

(** * Properties *)

(** ** The row computations *)

Lemma append_assoc (a b c : string) : (a +:+ b) +:+ c = a +:+ b +:+ c.
Proof.
  induction a as [|x a IH]; [reflexivity|].
  change (String x ((a +:+ b) +:+ c) = String x (a +:+ b +:+ c)).
  by rewrite IH.
Qed.

Lemma filter_map_strip (l : list string) :
  map strip (List.filter (λ x, truthy (strip x)) l)
  = List.filter truthy (map strip l).
Proof.
  induction l as [|x l IH]; simpl; [reflexivity|].
  destruct (truthy (strip x)); simpl; congruence.
Qed.

Lemma header_spec typ prio est milestone :
  header typ prio est milestone = spec_header_lines typ prio est milestone.
Proof.
  unfold header, spec_header_lines; simpl.
  destruct (truthy typ), (truthy prio), (truthy est), (truthy milestone);
    reflexivity.
Qed.

(** C3.  For every row the composed body is the header lines of the
    non-empty fields joined by newlines, a blank line and the raw
    description, and the description alone when every metadata field is
    empty; the row (bug, P1, 3, Sprint 1, Fix it) gives the body of the
    specification's example. *)
Theorem C3_body_composition :
  (∀ (r : Row) (milestone : string),
     row_body r milestone
     = spec_body (get_or_empty r "Type") (get_or_empty r "Priority")
         (get_or_empty r "Estimate") milestone (get_or_empty r "Description"))
  ∧ row_body row_bug "Sprint 1"
    = "**Type:** bug" +:+ nl +:+ "**Priority:** P1" +:+ nl +:+
      "**Estimate:** 3 pts" +:+ nl +:+ "**Milestone:** Sprint 1" +:+ nl +:+ nl +:+
      "Fix it"
  ∧ (∀ r : Row,
       get_or_empty r "Type" = "" → get_or_empty r "Priority" = "" →
       get_or_empty r "Estimate" = "" →
       row_body r "" = get_or_empty r "Description").
Proof.
  split; [|split].
  - intros r milestone. unfold row_body, spec_body, body.
    rewrite header_spec.
    destruct (spec_header_lines _ _ _ _); [reflexivity|].
    change ("" +:+ ?x) with x. by rewrite !append_assoc.
  - vm_compute. reflexivity.
  - intros r Ht Hp He. unfold row_body. rewrite Ht, Hp, He. reflexivity.
Qed.

Lemma C3_body_composition_witness :
  row_body row_no_meta "" = get_or_empty row_no_meta "Description".
Proof.
  apply (proj2 (proj2 C3_body_composition) row_no_meta); reflexivity.
Defined.

(** C4.  The dependency list of a row is its Dependencies field split on
    comma or semicolon, each token trimmed, the empty tokens discarded, in
    the order of the field; an empty field gives the empty list and
    [A, B;C] gives [A; B; C]. *)
Theorem C4_dependency_parsing :
  (∀ r : Row, deps r = spec_deps (get_or_empty r "Dependencies"))
  ∧ (∀ r : Row, get_or_empty r "Dependencies" = "" → deps r = [])
  ∧ deps (row_with_deps "A, B;C") = ["A"; "B"; "C"].
Proof.
  split; [|split].
  - intros r. unfold deps, spec_deps. apply filter_map_strip.
  - intros r H. unfold deps. rewrite H. reflexivity.
  - vm_compute. reflexivity.
Qed.

Lemma C4_dependency_parsing_witness : deps (row_with_deps "") = [].
Proof.
  apply (proj1 (proj2 C4_dependency_parsing) (row_with_deps "")); reflexivity.
Defined.

Example strip_example :
  strip (String "009" " A, b  " +:+ String "194" (String "160" "")) = "A, b"
  ∧ split_on is_semicolon_or_comma "a,;b," = ["a"; ""; "b"; ""]
  ∧ split_first "/" "acme/app/x" = ["acme"; "app/x"].
Proof. repeat split; vm_compute; reflexivity. Qed.

(** ** Links between issues *)

Lemma issue_refs_spec (m : gmap (option string) IssueRef) (ds : list string) :
  issue_refs m ds
  = Ok (map (λ v, "#" +:+ fmt_ref v) (omap (λ d, m !! Some d) ds)).
Proof.
  induction ds as [|d ds IH]; [reflexivity|].
  cbn [issue_refs omap list_omap]. unfold getitem. rewrite IH.
  destruct (m !! Some d) as [v|] eqn:E.
  - rewrite bool_decide_true by eauto. reflexivity.
  - rewrite bool_decide_false by (intros [? ?]; discriminate). reflexivity.
Qed.

Lemma omap_unresolved {A B} (f : A → option B) (l : list A) :
  (∀ x, x ∈ l → f x = None) → omap f l = [].
Proof.
  induction l as [|x l IH]; intros H; [reflexivity|].
  cbn. rewrite (H x) by left. apply IH. intros y Hy. apply H. by right.
Qed.

Lemma dependencies_block_spec (m : gmap (option string) IssueRef)
    (ds : list string) :
  dependencies_block m ds
  = Ok (match omap (λ d, m !! Some d) ds with
        | [] => ""
        | vs => nl +:+ nl +:+ "### Dependencies" +:+ nl +:+
                join nl (map (λ v, "- [ ] Blocked by #" +:+ fmt_ref v) vs)
        end).
Proof.
  unfold dependencies_block. destruct ds as [|d ds]; [reflexivity|].
  rewrite issue_refs_spec. cbn [mbind Result_bind].
  destruct (omap _ _) as [|v vs]; [reflexivity|].
  cbn [map]. rewrite map_map. reflexivity.
Qed.

Lemma omap_middle_unresolved {A B} (f : A → option B) (l1 l2 : list A) (x : A) :
  f x = None → omap f (l1 ++ x :: l2) = omap f (l1 ++ l2).
Proof.
  intros H. induction l1 as [|y l1 IH]; cbn.
  - by rewrite H.
  - fold (omap f (l1 ++ x :: l2)). fold (omap f (l1 ++ l2)). by rewrite IH.
Qed.

Lemma extra_unresolved (m : gmap (option string) IssueRef)
    (ds : list string) (parent : string) :
  (∀ d, d ∈ ds → m !! Some d = None) →
  dependencies_block m ds = Ok "" ∧ extra m ds parent = parent_line m parent.
Proof.
  intros H.
  assert (dependencies_block m ds = Ok "") as Hb.
  { rewrite dependencies_block_spec, omap_unresolved; done. }
  split; [exact Hb|].
  unfold extra. rewrite Hb. cbn [mbind Result_bind].
  destruct (parent_line m parent); reflexivity.
Qed.

(** C5.  The references of a row are those of its dependencies that are in
    the Local-to-Remote Map, in order, and computing them raises nothing; a
    dependency that is not in the map changes nothing in the Dependencies
    block; when no dependency is in the map there is no block, [extra] is the
    parent line alone, and when that is empty too the row's body is left as
    it is. *)
Theorem C5_unresolved_dependencies_omitted
    (m : gmap (option string) IssueRef) (ds : list string) :
  issue_refs m ds
  = Ok (map (λ v, "#" +:+ fmt_ref v) (omap (λ d, m !! Some d) ds))
  ∧ (∀ before d after,
       ds = before ++ d :: after → m !! Some d = None →
       issue_refs m ds = issue_refs m (before ++ after)
       ∧ dependencies_block m ds = dependencies_block m (before ++ after))
  ∧ ((∀ d, d ∈ ds → m !! Some d = None) →
       dependencies_block m ds = Ok ""
       ∧ (∀ parent, extra m ds parent = parent_line m parent)
       ∧ (∀ owner repo token st r w,
            id_to_issue st = m →
            default [] (deps_map st !! (r !! "ID")) = ds →
            parent_line m (get_or_empty r "ParentID") = Ok "" →
            link_row owner repo token st r w = (Ok tt, w))).
Proof.
  split; [apply issue_refs_spec|split].
  - intros before d after -> Hd.
    rewrite !issue_refs_spec, !dependencies_block_spec.
    rewrite (omap_middle_unresolved (λ d, m !! Some d)) by exact Hd.
    split; reflexivity.
  - intros H. split; [exact (proj1 (extra_unresolved m ds "" H))|split].
    + intros parent. exact (proj2 (extra_unresolved m ds parent H)).
    + intros owner repo token st r w Hm Hds Hp. unfold link_row.
      rewrite Hm, Hds.
      destruct (m !! (r !! "ID")) as [n|]; [|reflexivity].
      destruct (truthy_ref n); [|reflexivity]. cbn [negb].
      destruct (extra_unresolved m ds (get_or_empty r "ParentID") H) as [_ ->].
      rewrite Hp. reflexivity.
Qed.

Lemma C5_unresolved_dependencies_omitted_witness :
  dependencies_block sample_map ["A"; "ghost"]
  = dependencies_block sample_map (["A"] ++ [])
  ∧ dependencies_block sample_map ["ghost"] = Ok "".
Proof.
  split.
  - apply (proj1 (proj2 (C5_unresolved_dependencies_omitted sample_map
                           ["A"; "ghost"])) ["A"] "ghost" []); reflexivity.
  - apply (proj2 (proj2 (C5_unresolved_dependencies_omitted sample_map
                           ["ghost"]))).
    intros d Hd. apply list_elem_of_singleton in Hd as ->. reflexivity.
Defined.

(** ** Effectful computations *)

Lemma bind_Ok_inv {A B} (m : M A) (k : A → M B) (w w' : World) (b : B) :
  (m ≫= k) w = (Ok b, w') →
  ∃ a w1, m w = (Ok a, w1) ∧ k a w1 = (Ok b, w').
Proof.
  unfold mbind, M_bind. destruct (m w) as [[a| |] w1]; intros H;
    [eauto|discriminate..].
Qed.

Lemma bind_Ok {A B} (m : M A) (k : A → M B) (w w1 : World) (a : A) :
  m w = (Ok a, w1) → (m ≫= k) w = k a w1.
Proof. unfold mbind, M_bind. by intros ->. Qed.

Lemma for_fold_app {A S} (f : S → A → M S) (l1 l2 : list A) (s : S) (w : World) :
  for_fold (l1 ++ l2) f s w = (for_fold l1 f s ≫= for_fold l2 f) w.
Proof.
  revert s w. induction l1 as [|x l1 IH]; intros s w; [reflexivity|].
  cbn [app for_fold]. unfold mbind, M_bind in *.
  destruct (f s x w) as [[s1| |] w1]; [apply IH|reflexivity..].
Qed.

(** A property of the local variables that every turn of a loop keeps holds
    when the loop ends. *)
Lemma for_fold_invariant {A S} (f : S → A → M S) (P : list A → S → Prop)
    (l : list A) :
  (∀ seen x s w s1 w1,
     x ∈ l → P seen s → f s x w = (Ok s1, w1) → P (seen ++ [x]) s1) →
  ∀ seen s w s1 w1,
    P seen s → for_fold l f s w = (Ok s1, w1) → P (seen ++ l) s1.
Proof.
  induction l as [|x l IH]; intros Hstep seen s w s1 w1 HP H.
  - injection H as <- _. by rewrite app_nil_r.
  - cbn [for_fold] in H. apply bind_Ok_inv in H as (s2 & w2 & Hx & H).
    replace (seen ++ x :: l) with ((seen ++ [x]) ++ l)
      by (by rewrite <- app_assoc).
    eapply IH; [|eapply Hstep; [left|eassumption..]|exact H].
    intros seen' y s' w' s1' w1' Hy. apply Hstep. by right.
Qed.

(** ** The creation pass *)

(** What a turn of the first loop that ends normally has done to the three
    dictionaries. *)
Lemma create_row_Ok (args : Args) (owner repo token : string)
    (milestone_number : option Z) (st st1 : Maps) (r : Row) (w w1 : World) :
  create_row args owner repo token milestone_number st r w = (Ok st1, w1) →
  parent_to_children st1
  = (if truthy (get_or_empty r "ParentID")
     then append_child (get_or_empty r "ParentID") (r !! "ID")
            (parent_to_children st)
     else parent_to_children st)
  ∧ deps_map st1
    = match deps r with
      | [] => deps_map st
      | _ :: _ => <[r !! "ID" := deps r]> (deps_map st)
      end
  ∧ ∃ v, id_to_issue st1 = <[r !! "ID" := v]> (id_to_issue st)
      ∧ (dry_run args = true → v = Placeholder ("DRY-" +:+ fmt_opt (r !! "ID")))
      ∧ (dry_run args = false →
         ∃ issue w0,
           create_issue owner repo token (api_title r)
             (row_body r (milestone args)) (labels r) milestone_number
             (if truthy (assignee args) then [assignee args] else []) w
           = (Ok issue, w0)
           ∧ v = Number (is_number issue)).
Proof.
  unfold create_row. destruct (dry_run args).
  - intros [= <- <-]. cbn. repeat split. eexists. repeat split; done.
  - intros H. apply bind_Ok_inv in H as (issue & w0 & Hc & H).
    injection H as <- <-. cbn. repeat split.
    eexists. repeat split; [done|]. intros _. eauto.
Qed.

(** ** The Parent-to-Children map *)

Lemma children_of_append_child (d : list (string * list (option string)))
    (parent q : string) (iid : option string) :
  children_of (append_child parent iid d) q
  = children_of d q ++ (if String.eqb parent q then [iid] else []).
Proof.
  induction d as [|[p ch] d IH]; cbn [append_child children_of].
  - destruct (String.eqb parent q); reflexivity.
  - destruct (String.eqb p parent) eqn:Epp; cbn [children_of].
    + apply String.eqb_eq in Epp as ->.
      destruct (String.eqb parent q); [reflexivity|by rewrite app_nil_r].
    + destruct (String.eqb p q) eqn:Epq; [|exact IH].
      apply String.eqb_eq in Epq as ->. rewrite String.eqb_sym, Epp.
      by rewrite app_nil_r.
Qed.

Lemma append_child_keys (d : list (string * list (option string)))
    (parent : string) (iid : option string) :
  map fst (append_child parent iid d)
  = if bool_decide (parent ∈ map fst d) then map fst d
    else map fst d ++ [parent].
Proof.
  induction d as [|[p ch] d IH]; cbn [append_child map fst].
  - rewrite bool_decide_false; [reflexivity|]. apply not_elem_of_nil.
  - destruct (String.eqb p parent) eqn:Epp; cbn [map fst].
    + apply String.eqb_eq in Epp as ->.
      rewrite bool_decide_true; [reflexivity|]. left.
    + rewrite IH. apply String.eqb_neq in Epp.
      destruct (bool_decide (parent ∈ map fst d)) eqn:E.
      * apply bool_decide_eq_true in E. rewrite bool_decide_true; [done|].
        by right.
      * apply bool_decide_eq_false in E. rewrite bool_decide_false; [done|].
        intros H. apply elem_of_cons in H as [H|H]; [congruence|done].
Qed.

Lemma append_child_NoDup (d : list (string * list (option string)))
    (parent : string) (iid : option string) :
  NoDup (map fst d) → NoDup (map fst (append_child parent iid d)).
Proof.
  intros H. rewrite append_child_keys. case_bool_decide as E; [exact H|].
  apply NoDup_app. split; [exact H|]. split; [|apply NoDup_singleton].
  intros x Hx Hx'. apply list_elem_of_singleton in Hx' as ->. done.
Qed.

Lemma children_of_entry (d : list (string * list (option string)))
    (p : string) (ch : list (option string)) :
  NoDup (map fst d) → (p, ch) ∈ d → children_of d p = ch.
Proof.
  induction d as [|[q ch'] d IH]; intros Hnd Hin.
  - by apply elem_of_nil in Hin.
  - cbn [map fst] in Hnd. apply NoDup_cons in Hnd as [Hq Hnd].
    cbn [children_of]. apply elem_of_cons in Hin as [Hin|Hin].
    + injection Hin as -> ->. by rewrite String.eqb_refl.
    + destruct (String.eqb q p) eqn:E; [|by apply IH].
      apply String.eqb_eq in E as ->. exfalso. apply Hq.
      apply list_elem_of_fmap. by exists (p, ch).
Qed.

(** The rows of [rows] that name [parent] as their parent. *)
Lemma filter_snoc {A} (f : A → bool) (l : list A) (x : A) :
  List.filter f (l ++ [x]) = List.filter f l ++ (if f x then [x] else []).
Proof.
  induction l as [|y l IH]; cbn; [by destruct (f x)|].
  rewrite IH. by destruct (f y).
Qed.

Lemma children_invariant_step (args : Args) (owner repo token : string)
    (milestone_number : option Z) (seen : list Row) (r : Row)
    (st : Maps) (w : World) (st1 : Maps) (w1 : World) :
  children_invariant seen st →
  create_row args owner repo token milestone_number st r w = (Ok st1, w1) →
  children_invariant (seen ++ [r]) st1.
Proof.
  intros [Hnd Hch] H. unfold children_invariant.
  apply create_row_Ok in H as (-> & _ & _).
  split.
  - destruct (truthy _); [by apply append_child_NoDup|exact Hnd].
  - intros parent Hp. rewrite filter_snoc, map_app.
    unfold truthy. destruct (String.eqb (get_or_empty r "ParentID") "") eqn:E.
    + apply String.eqb_eq in E. rewrite E. cbn [negb].
      rewrite (proj2 (String.eqb_neq "" parent)) by done.
      rewrite app_nil_r. by apply Hch.
    + cbn [negb]. rewrite children_of_append_child, Hch by done.
      by destruct (String.eqb _ parent).
Qed.

Lemma first_pass_children (args : Args) (owner repo token : string)
    (milestone_number : option Z) (rows : list Row) (st : Maps)
    (w w1 : World) :
  first_pass args owner repo token milestone_number rows w = (Ok st, w1) →
  children_invariant rows st.
Proof.
  intros H.
  apply (for_fold_invariant _ children_invariant rows) with (seen := [])
    in H; [exact H| |split; [apply NoDup_nil_2|reflexivity]].
  intros seen r s w0 s1 w2 _. apply children_invariant_step.
Qed.

(** C6.  When the creation pass is over, the Parent-to-Children map's entry
    for a parent id lists the ids of exactly the rows that declare that
    ParentID, in file order. *)
Theorem C6_children_in_file_order (args : Args) (owner repo token : string)
    (milestone_number : option Z) (rows : list Row) (st : Maps)
    (w w1 : World) (parent : string) :
  first_pass args owner repo token milestone_number rows w = (Ok st, w1) →
  parent ≠ "" →
  children_of (parent_to_children st) parent
  = map (λ r : Row, r !! "ID")
      (List.filter (λ r, String.eqb (get_or_empty r "ParentID") parent) rows)
  ∧ ∀ children, (parent, children) ∈ parent_to_children st →
      children = children_of (parent_to_children st) parent.
Proof.
  intros H Hp. apply first_pass_children in H as [Hnd Hch].
  split; [by apply Hch|].
  intros children Hin. symmetry. by apply children_of_entry.
Qed.

Lemma C6_children_in_file_order_witness :
  ∃ st w1,
    first_pass dry_args "acme" "app" "secret" None sample_rows sample_world
    = (Ok st, w1)
    ∧ children_of (parent_to_children st) "P1" = [Some "P2"; Some "P3"].
Proof.
  eexists _, _. split; [vm_compute; reflexivity|].
  eapply eq_trans.
  - eapply proj1.
    eapply (C6_children_in_file_order dry_args "acme" "app" "secret" None
              sample_rows _ sample_world _ "P1");
      [vm_compute; reflexivity|discriminate].
  - vm_compute. reflexivity.
Defined.

(** ** The Local-to-Remote Map *)

(** A turn of the first loop for a row with another identifier leaves the
    entry of [iid] as it is. *)
Lemma create_row_other (args : Args) (owner repo token : string)
    (milestone_number : option Z) (st st1 : Maps) (r : Row) (w w1 : World)
    (iid : option string) :
  create_row args owner repo token milestone_number st r w = (Ok st1, w1) →
  r !! "ID" ≠ iid →
  id_to_issue st1 !! iid = id_to_issue st !! iid.
Proof.
  intros H Hne. apply create_row_Ok in H as (_ & _ & v & -> & _).
  by apply lookup_insert_ne.
Qed.

Lemma for_fold_create_other (args : Args) (owner repo token : string)
    (milestone_number : option Z) (rows : list Row) (st st1 : Maps)
    (w w1 : World) (iid : option string) :
  for_fold rows (create_row args owner repo token milestone_number) st w
  = (Ok st1, w1) →
  (∀ r, r ∈ rows → r !! "ID" ≠ iid) →
  id_to_issue st1 !! iid = id_to_issue st !! iid.
Proof.
  intros H Hne.
  apply (for_fold_invariant _
           (λ _ s, id_to_issue s !! iid = id_to_issue st !! iid) rows)
    with (seen := []) in H; [exact H| |reflexivity].
  intros _ r s w0 s1 w2 Hr Hs Hc. rewrite <- Hs.
  eapply create_row_other; [exact Hc|by apply Hne].
Qed.

(** C9.  When rows share a local identifier, the entry of the
    Local-to-Remote Map for it is what the last of them was given: the number
    of the issue created for that row (the placeholder in a dry run),
    whatever the earlier rows stored there; the dependency reference, the
    parent line and the subtask entry that name the identifier show that
    value. *)
Theorem C9_last_row_wins (args : Args) (owner repo token : string)
    (milestone_number : option Z) (before : list Row) (r : Row)
    (after : list Row) (st : Maps) (w w1 : World) :
  first_pass args owner repo token milestone_number (before ++ r :: after) w
  = (Ok st, w1) →
  (∀ r', r' ∈ after → r' !! "ID" ≠ r !! "ID") →
  ∃ v,
    id_to_issue st !! (r !! "ID") = Some v
    ∧ (dry_run args = true → v = Placeholder ("DRY-" +:+ fmt_opt (r !! "ID")))
    ∧ (dry_run args = false →
       ∃ st0 w0 issue w0',
         for_fold before (create_row args owner repo token milestone_number)
           no_maps w = (Ok st0, w0)
         ∧ create_issue owner repo token (api_title r)
             (row_body r (milestone args)) (labels r) milestone_number
             (if truthy (assignee args) then [assignee args] else []) w0
           = (Ok issue, w0')
         ∧ v = Number (is_number issue))
    ∧ (∀ d, r !! "ID" = Some d →
         issue_refs (id_to_issue st) [d] = Ok ["#" +:+ fmt_ref v]
         ∧ (d ≠ "" →
            parent_line (id_to_issue st) d
            = Ok (nl +:+ nl +:+ "**Parent:** #" +:+ fmt_ref v)))
    ∧ (∀ rows title,
         ct rows (r !! "ID") ("Issue " +:+ fmt_ref v) = Ok title →
         subtask_lines rows (id_to_issue st) [r !! "ID"]
         = Ok [nl +:+ nl +:+ "### Subtasks";
               "- [ ] #" +:+ fmt_ref v +:+ " — " +:+ title]).
Proof.
  intros H Hafter. unfold first_pass in H. rewrite for_fold_app in H.
  apply bind_Ok_inv in H as (st0 & w0 & Hbefore & H).
  cbn [for_fold] in H. apply bind_Ok_inv in H as (st1 & w2 & Hr & H).
  pose proof (for_fold_create_other _ _ _ _ _ _ _ _ _ _ _ H Hafter) as Hkeep.
  apply create_row_Ok in Hr as (_ & _ & v & Hv & Hdry & Hreal).
  rewrite Hv, lookup_insert_eq in Hkeep.
  exists v. split; [exact Hkeep|]. split; [exact Hdry|]. split; [|split].
  - intros Hd. destruct (Hreal Hd) as (issue & w0' & Hc & ->).
    exists st0, w0, issue, w0'. done.
  - intros d Hd. rewrite Hd in Hkeep. split.
    + rewrite issue_refs_spec. cbn. by rewrite Hkeep.
    + intros Hne. unfold parent_line, getitem. rewrite Hkeep.
      rewrite bool_decide_true by eauto.
      unfold truthy. rewrite (proj2 (String.eqb_neq d "")) by done.
      reflexivity.
  - intros rows title Hct. unfold subtask_lines.
    cbn [foldl mbind Result_bind]. rewrite Hkeep. cbn [fmt_ref_opt].
    rewrite Hct. reflexivity.
Qed.

Lemma C9_last_row_wins_witness :
  ∃ st w1,
    first_pass real_args "acme" "app" "secret" None twin_rows sample_world
    = (Ok st, w1)
    ∧ id_to_issue st !! Some "A" = Some (Number 2).
Proof.
  eexists _, _. split; [vm_compute; reflexivity|].
  edestruct (C9_last_row_wins real_args "acme" "app" "secret" None
               [mk_row [("ID", "A"); ("Title", "first")]]
               (mk_row [("ID", "A"); ("Title", "second")]) [])
    with (w := sample_world) as (v & Hv & _ & Hreal & _);
    [vm_compute; reflexivity|intros r' Hr'; by apply elem_of_nil in Hr'|].
  destruct (Hreal eq_refl) as (st0 & w0 & issue & w0' & Hb & Hc & ->).
  vm_compute in Hb. injection Hb as <- <-.
  vm_compute in Hc. injection Hc as <- _. exact Hv.
Defined.

(** ** The rows of a file have the same columns *)

Lemma Result_bind_Ok_inv {A B} (m : Result A) (k : A → Result B) (b : B) :
  m ≫= k = Ok b → ∃ a, m = Ok a ∧ k a = Ok b.
Proof. destruct m; cbn; intros H; [eauto|discriminate..]. Qed.

Lemma zip_cells_keys (fieldnames row : list string) :
  map fst (zip_cells fieldnames row) = fieldnames.
Proof.
  revert row. induction fieldnames as [|k ks IH]; intros row; [reflexivity|].
  destruct row; cbn; by rewrite IH.
Qed.

Lemma foldl_insert_keys {V} (g : option string → V)
    (l : list (string * option string)) (d : gmap string V) (k : string) :
  is_Some (foldl (λ (d : gmap string V) kv, <[kv.1 := g kv.2]> d) d l !! k)
  ↔ is_Some (d !! k) ∨ k ∈ map fst l.
Proof.
  revert d. induction l as [|[k1 v1] l IH]; intros d; cbn [foldl map fst].
  - split; [by left|]. intros [H|H]; [done|by apply elem_of_nil in H].
  - rewrite IH. cbn. rewrite lookup_insert_is_Some, elem_of_cons.
    destruct (decide (k1 = k)) as [->|Hne]; intuition (auto || congruence).
Qed.

Lemma stripped_keys (row : DictRow) (r : Row) (k : string) :
  stripped row = Ok r → is_Some (r !! k) ↔ k ∈ map fst (cells row).
Proof.
  unfold stripped. destruct (surplus row); [|discriminate].
  intros [= <-].
  rewrite (foldl_insert_keys (λ o, strip (default "" o))), lookup_empty.
  split; [intros [[? ?]|?]; done|by right].
Qed.

Lemma stripped_rows_keys (fieldnames : list string)
    (records : list (list string)) (rows : list Row) :
  stripped_rows
    (map (λ row, {| cells := zip_cells fieldnames row;
                    surplus := skipn (length fieldnames) row |}) records)
  = Ok rows →
  ∀ (r : Row) k, r ∈ rows → is_Some (r !! k) ↔ k ∈ fieldnames.
Proof.
  revert rows. induction records as [|row records IH]; intros rows H r k Hr.
  - injection H as <-. by apply elem_of_nil in Hr.
  - cbn [map stripped_rows] in H.
    apply Result_bind_Ok_inv in H as (r0 & H0 & H).
    apply Result_bind_Ok_inv in H as (rows0 & Hrows & H).
    injection H as <-. apply elem_of_cons in Hr as [->|Hr].
    + rewrite (stripped_keys _ _ _ H0). cbn. by rewrite zip_cells_keys.
    + by apply (IH rows0).
Qed.

(** The rows [parse_csv] returns have the columns of the header, all of
    them. *)
Lemma parse_csv_uniform (records : list (list string)) (rows : list Row)
    (r r' : Row) (k : string) :
  stripped_rows (DictReader records) = Ok rows →
  r ∈ rows → r' ∈ rows → is_Some (r !! k) → is_Some (r' !! k).
Proof.
  destruct records as [|fieldnames records]; cbn [DictReader].
  - intros [= <-] Hr. by apply elem_of_nil in Hr.
  - intros H Hr Hr' Hk.
    rewrite (stripped_rows_keys _ _ _ H r' k Hr').
    by rewrite <- (stripped_rows_keys _ _ _ H r k Hr).
Qed.

(** ** The title of a subtask *)

Lemma append_child_elem (d : list (string * list (option string)))
    (parent p : string) (iid c : option string) (ch : list (option string)) :
  (p, ch) ∈ append_child parent iid d → c ∈ ch →
  c = iid ∨ ∃ ch', (p, ch') ∈ d ∧ c ∈ ch'.
Proof.
  induction d as [|[q ch0] d IH]; cbn [append_child]; intros Hin Hc.
  - apply list_elem_of_singleton in Hin. injection Hin as -> ->.
    apply list_elem_of_singleton in Hc. by left.
  - destruct (String.eqb q parent).
    + apply elem_of_cons in Hin as [Hin|Hin].
      * injection Hin as -> ->. apply elem_of_app in Hc as [Hc|Hc].
        -- right. exists ch0. split; [left|exact Hc].
        -- apply list_elem_of_singleton in Hc. by left.
      * right. exists ch. split; [by right|exact Hc].
    + apply elem_of_cons in Hin as [Hin|Hin].
      * injection Hin as -> ->. right. exists ch0. split; [left|exact Hc].
      * destruct (IH Hin Hc) as [?|(ch' & ? & ?)]; [by left|].
        right. exists ch'. split; [by right|done].
Qed.

Lemma ids_invariant_step (args : Args) (owner repo token : string)
    (milestone_number : option Z) (seen : list Row) (r : Row)
    (st : Maps) (w : World) (st1 : Maps) (w1 : World) :
  ids_invariant seen st →
  create_row args owner repo token milestone_number st r w = (Ok st1, w1) →
  ids_invariant (seen ++ [r]) st1.
Proof.
  intros [Hch Hkeys] H. unfold ids_invariant.
  apply create_row_Ok in H as (-> & _ & v & -> & _). split.
  - intros p ch c Hin Hc.
    assert (c = r !! "ID" ∨ ∃ ch', (p, ch') ∈ parent_to_children st ∧ c ∈ ch')
      as [->|(ch' & Hin' & Hc')].
    { destruct (truthy _); [by eapply append_child_elem|eauto]. }
    + exists r. split; [|done]. apply elem_of_app. right. left.
    + destruct (Hch p ch' c Hin' Hc') as (r0 & ? & ?).
      exists r0. split; [|done]. apply elem_of_app. by left.
  - intros k Hk. apply lookup_insert_is_Some in Hk as [<-|[_ Hk]].
    + exists r. split; [|done]. apply elem_of_app. right. left.
    + destruct (Hkeys k Hk) as (r0 & ? & ?).
      exists r0. split; [|done]. apply elem_of_app. by left.
Qed.

Lemma first_pass_ids (args : Args) (owner repo token : string)
    (milestone_number : option Z) (rows : list Row) (st : Maps)
    (w w1 : World) :
  first_pass args owner repo token milestone_number rows w = (Ok st, w1) →
  ids_invariant rows st.
Proof.
  intros H.
  apply (for_fold_invariant _ ids_invariant rows) with (seen := []) in H;
    [exact H| |].
  - intros seen r s w0 s1 w2 _. apply ids_invariant_step.
  - split.
    + intros p ch c Hin. by apply elem_of_nil in Hin.
    + intros k [v Hk]. cbn [id_to_issue no_maps] in Hk.
      by rewrite lookup_empty in Hk.
Qed.

Lemma ct_cons (r0 : Row) (rows : list Row) (child_id : option string)
    (fallback : string) :
  ct (r0 :: rows) child_id fallback
  = match r0 !! "ID" with
    | None => Raise (KeyError "ID")
    | Some id =>
        if bool_decide (Some id = child_id) then getitem r0 "Title" "Title"
        else ct rows child_id fallback
    end.
Proof. cbn [ct]. unfold getitem. destruct (r0 !! "ID"); reflexivity. Qed.

(** When some row has the identifier looked for, the fallback plays no part
    in the outcome of the lookup. *)
Lemma ct_fallback_unused (rows : list Row) (child_id : option string)
    (r : Row) (f1 f2 : string) :
  r ∈ rows → r !! "ID" = child_id →
  ct rows child_id f1 = ct rows child_id f2.
Proof.
  induction rows as [|r0 rows IH]; intros Hin Hid.
  - by apply elem_of_nil in Hin.
  - rewrite !ct_cons.
    destruct (r0 !! "ID") as [id|] eqn:E0; [|reflexivity].
    case_bool_decide as Heq; [reflexivity|].
    apply elem_of_cons in Hin as [->|Hin]; [congruence|by apply IH].
Qed.

(** When every row has an ID, the lookup ends at a row with the identifier
    looked for and yields the outcome of reading its title. *)
Lemma ct_first_match (rows : list Row) (child_id : option string) (r : Row) :
  (∀ r0 : Row, r0 ∈ rows → is_Some (r0 !! "ID")) →
  r ∈ rows → r !! "ID" = child_id →
  ∃ r1 : Row, r1 ∈ rows ∧ r1 !! "ID" = child_id
    ∧ ∀ fallback, ct rows child_id fallback = getitem r1 "Title" "Title".
Proof.
  induction rows as [|r0 rows IH]; intros Hall Hin Hid.
  - by apply elem_of_nil in Hin.
  - destruct (Hall r0) as [id E0]; [left|].
    destruct (decide (Some id = child_id)) as [Heq|Hne].
    + exists r0. split; [left|]. split; [congruence|].
      intros fallback. rewrite ct_cons, E0. by rewrite bool_decide_true.
    + apply elem_of_cons in Hin as [->|Hin]; [congruence|].
      destruct IH as (r1 & Hr1 & Hid1 & Hct); [|done..|].
      { intros r2 Hr2. apply Hall. by right. }
      exists r1. split; [by right|]. split; [done|].
      intros fallback. rewrite ct_cons, E0.
      rewrite bool_decide_false by done. apply Hct.
Qed.

(** C10.  Every child stored in the Parent-to-Children map is the ID of a
    loaded row, and the outcome of the title lookup for it does not depend
    on the fallback; for the rows of a CSV file, when the parent's turn is
    not skipped the lookup ends at a row with the child's identifier. *)
Theorem C10_child_title_lookup (args : Args) (owner repo token : string)
    (milestone_number : option Z) (rows : list Row) (st : Maps)
    (w w1 : World) (parent : string) (children : list (option string))
    (child : option string) :
  first_pass args owner repo token milestone_number rows w = (Ok st, w1) →
  (parent, children) ∈ parent_to_children st →
  child ∈ children →
  (∃ r : Row, r ∈ rows ∧ r !! "ID" = child)
  ∧ (∀ f1 f2, ct rows child f1 = ct rows child f2)
  ∧ (∀ records,
       stripped_rows (DictReader records) = Ok rows →
       is_Some (id_to_issue st !! Some parent) →
       ∃ r : Row, r ∈ rows ∧ r !! "ID" = child
         ∧ ∀ fallback, ct rows child fallback = getitem r "Title" "Title").
Proof.
  intros H Hin Hc. apply first_pass_ids in H as [Hch Hkeys].
  destruct (Hch parent children child Hin Hc) as (r & Hr & Hid).
  split; [by exists r|]. split.
  - intros f1 f2. by apply (ct_fallback_unused rows child r).
  - intros records Hparse Hparent.
    destruct (Hkeys _ Hparent) as (rp & Hrp & Hidp).
    apply (ct_first_match rows child r); [|done..].
    intros r0 Hr0. apply (parse_csv_uniform records rows rp r0 "ID"); [done..|].
    by rewrite Hidp.
Qed.

Lemma C10_child_title_lookup_witness :
  ∃ st w1,
    first_pass dry_args "acme" "app" "secret" None sample_rows sample_world
    = (Ok st, w1)
    ∧ ct sample_rows (Some "P3") "Issue 3" = ct sample_rows (Some "P3") "".
Proof.
  eexists _, _. split; [vm_compute; reflexivity|].
  edestruct (C10_child_title_lookup dry_args "acme" "app" "secret" None
               sample_rows)
    with (w := sample_world) (parent := "P1")
         (children := [Some "P2"; Some "P3"]) (child := Some "P3")
    as (_ & Hct & _); [vm_compute; reflexivity|left|right; left|].
  apply Hct.
Defined.

(** ** Requests *)

(** A request, the check of its status and the reading of its document
    leave one exchange on the transcript and touch nothing else than the
    service and the pending faults. *)
Lemma send_check_json {A} (h : Headers) (req : Request A) (w : World) :
  ∃ res err rm,
    (r ← requests_send h req; raise_for_status r;; json r) w
    = (res, exchanged w rm
              {| x_headers := h; x_request := Sent req; x_error := err |}).
Proof.
  unfold mbind, M_bind, requests_send.
  destruct (head (faults w)) as [[| |c]|]; cbn; eauto.
  - destruct (serve req (remote w)) as [[doc|c] rm]; cbn; eauto.
  - destruct (serve req (remote w)) as [[doc|c] rm]; cbn; eauto.
Qed.

Lemma create_issue_world (owner repo token title body : string)
    (labels : list string) (milestone_number : option Z)
    (assignees : list string) (w : World) :
  ∃ res err rm payload,
    create_issue owner repo token title body labels milestone_number
      assignees w
    = (res, exchanged w rm
              {| x_headers := gh_headers token;
                 x_request := Sent (POST_issues owner repo payload);
                 x_error := err |})
    ∧ pl_title payload = title ∧ pl_body payload = body.
Proof.
  unfold create_issue.
  destruct (send_check_json (gh_headers token)
              (POST_issues owner repo
                 {| pl_title := title; pl_body := body;
                    pl_labels := match labels with
                                 | [] => None | _ :: _ => Some labels end;
                    pl_milestone :=
                      match milestone_number with
                      | Some n => if n =? 0 then None else Some n
                      | None => None
                      end;
                    pl_assignees := match assignees with
                                    | [] => None | _ :: _ => Some assignees
                                    end |}) w)
    as (res & err & rm & ->).
  eauto 10.
Qed.

(** C8.  A row whose Title is empty or absent is sent to the service with
    the title [(no title)], and a dry run reports it under that title. *)
Theorem C8_missing_title (args : Args) (owner repo token : string)
    (milestone_number : option Z) (st : Maps) (r : Row) (w : World) :
  r !! "Title" = None ∨ r !! "Title" = Some "" →
  api_title r = "(no title)"
  ∧ (dry_run args = true →
     ∃ st1 w1,
       create_row args owner repo token milestone_number st r w = (Ok st1, w1)
       ∧ stdout w1 = stdout w ++ [DryIssue "(no title)" (labels r)]
       ∧ transcript w1 = transcript w)
  ∧ (dry_run args = false →
     ∃ res w1 payload err,
       create_row args owner repo token milestone_number st r w = (res, w1)
       ∧ transcript w1
         = transcript w ++
           [{| x_headers := gh_headers token;
               x_request := Sent (POST_issues owner repo payload);
               x_error := err |}]
       ∧ pl_title payload = "(no title)"
       ∧ (∀ st1, res = Ok st1 →
            ∃ n, stdout w1 = stdout w ++ [Created n "(no title)"])).
Proof.
  intros Htitle.
  assert (api_title r = "(no title)") as Hapi.
  { unfold api_title. destruct Htitle as [-> | ->]; reflexivity. }
  split; [exact Hapi|]. split; intros Hdry; unfold create_row; rewrite Hdry, Hapi.
  - eexists _, _. split; [reflexivity|]. split; reflexivity.
  - destruct (create_issue_world owner repo token "(no title)"
                (row_body r (milestone args)) (labels r) milestone_number
                (if truthy (assignee args) then [assignee args] else []) w)
      as (res & err & rm & payload & Hc & Hpt & _).
    unfold mbind at 1, M_bind at 1. rewrite Hc.
    destruct res as [issue| |]; cbn.
    + eexists _, _, payload, err. split; [reflexivity|].
      split; [reflexivity|]. split; [exact Hpt|]. intros st1 _. eauto.
    + eexists _, _, payload, err. split; [reflexivity|].
      split; [reflexivity|]. split; [exact Hpt|]. intros st1 [=].
    + eexists _, _, payload, err. split; [reflexivity|].
      split; [reflexivity|]. split; [exact Hpt|]. intros st1 [=].
Qed.

Lemma C8_missing_title_witness : api_title untitled_row = "(no title)".
Proof.
  apply (C8_missing_title dry_args "acme" "app" "secret" None no_maps
           untitled_row sample_world).
  right. reflexivity.
Defined.

(** ** Labels *)

(** One turn of the loop of [ensure_labels]: whatever befalls the request,
    the turn ends normally; a failure leaves a warning on the error stream. *)
Lemma ensure_labels_turn (owner repo token name : string) (w : World) :
  ∃ x w1,
    try_except
      (r ← requests_send (gh_headers token)
             (POST_labels owner repo name "ededed");
       raise_for_status r)
      (λ e, print_stderr (LabelWarning name e)) w
    = (Ok tt, w1)
    ∧ x_request x = Sent (POST_labels owner repo name "ededed")
    ∧ transcript w1 = transcript w ++ [x]
    ∧ stderr w1 = stderr w ++ label_warnings [x]
    ∧ stdout w1 = stdout w.
Proof.
  unfold try_except, mbind, M_bind, requests_send.
  destruct (head (faults w)) as [[| |c]|]; cbn.
  - destruct (existsb _ _); cbn; eexists _, _; repeat split;
      rewrite ?app_nil_r; reflexivity.
  - eexists _, _; repeat split; reflexivity.
  - eexists _, _; repeat split; reflexivity.
  - destruct (existsb _ _); cbn; eexists _, _; repeat split;
      rewrite ?app_nil_r; reflexivity.
Qed.

Lemma ensure_labels_loop (owner repo token : string) (names : list string)
    (w : World) :
  ∃ xs w1,
    for_each names (λ name,
      try_except
        (r ← requests_send (gh_headers token)
               (POST_labels owner repo name "ededed");
         raise_for_status r)
        (λ e, print_stderr (LabelWarning name e))) w
    = (Ok tt, w1)
    ∧ map x_request xs
      = map (λ name, Sent (POST_labels owner repo name "ededed")) names
    ∧ transcript w1 = transcript w ++ xs
    ∧ stderr w1 = stderr w ++ label_warnings xs
    ∧ stdout w1 = stdout w.
Proof.
  revert w. induction names as [|name names IH]; intros w.
  - exists [], w. cbn. by rewrite !app_nil_r.
  - destruct (ensure_labels_turn owner repo token name w)
      as (x & w0 & Hturn & Hreq & Htr & Herr & Hout).
    destruct (IH w0) as (xs & w1 & Hloop & Hreqs & Htrs & Herrs & Houts).
    exists (x :: xs), w1. cbn [for_each].
    rewrite (bind_Ok _ _ _ _ _ Hturn). split; [exact Hloop|].
    split; [cbn [map]; by rewrite Hreq, Hreqs|].
    split; [by rewrite Htrs, Htr, <- app_assoc|].
    split; [|by rewrite Houts, Hout].
    rewrite Herrs, Herr, <- app_assoc. f_equal.
    unfold label_warnings. cbn [omap list_omap].
    destruct (label_warning x); reflexivity.
Qed.

(** C7.  Once the labels are listed, [ensure_labels] ends normally whatever
    befalls the creation of each missing label: a request is sent for every
    label to create, in order, and each failed one leaves a warning on the
    error stream and nothing else. *)
Theorem C7_label_failures_not_fatal (fuel : nat) (owner repo token : string)
    (wanted : list string) (existing : gmap string string) (w w1 : World) :
  list_labels fuel owner repo token w = (Ok existing, w1) →
  ∃ xs w2,
    ensure_labels fuel owner repo token wanted w = (Ok tt, w2)
    ∧ map x_request xs
      = map (λ name, Sent (POST_labels owner repo name "ededed"))
          (to_create wanted existing)
    ∧ transcript w2 = transcript w1 ++ xs
    ∧ stderr w2 = stderr w1 ++ label_warnings xs
    ∧ stdout w2 = stdout w1.
Proof.
  intros Hlist. unfold ensure_labels. rewrite (bind_Ok _ _ _ _ _ Hlist).
  apply ensure_labels_loop.
Qed.

Lemma C7_label_failures_not_fatal_witness :
  ∃ w2,
    ensure_labels 2 "acme" "app" "secret" ["bug"; "P1"] flaky_world
    = (Ok tt, w2)
    ∧ stderr w2 = [LabelWarning "bug" (HTTPError 500)]
    ∧ remote_labels (remote w2) = [{| lb_name := "P1"; lb_color := "ededed" |}].
Proof.
  edestruct (C7_label_failures_not_fatal 2 "acme" "app" "secret"
               ["bug"; "P1"]) with (w := flaky_world)
    as (xs & w2 & Hrun & _); [vm_compute; reflexivity|].
  exists w2. split; [exact Hrun|].
  vm_compute in Hrun. injection Hrun as <-. split; reflexivity.
Defined.

(** ** Dry runs *)

Lemma quiet_ret {A} (a : A) : quiet (mret a).
Proof. by intros w. Qed.

Lemma quiet_lift {A} (r : Result A) : quiet (lift r).
Proof. by intros w. Qed.

Lemma quiet_raise {A} (e : Exn) : quiet (@raise A e).
Proof. by intros w. Qed.

Lemma quiet_print (ln : Line) : quiet (print ln).
Proof. by intros w. Qed.

Lemma quiet_print_stderr (ln : Line) : quiet (print_stderr ln).
Proof. by intros w. Qed.

Lemma quiet_os_environ_get (k : string) : quiet (os_environ_get k).
Proof. by intros w. Qed.

Lemma quiet_parse_csv (path : string) : quiet (parse_csv path).
Proof. intros w. unfold parse_csv. by destruct (files w !! path). Qed.

Lemma quiet_bind {A B} (m : M A) (k : A → M B) :
  quiet m → (∀ a, quiet (k a)) → quiet (m ≫= k).
Proof.
  intros Hm Hk w. specialize (Hm w). unfold mbind, M_bind.
  destruct (m w) as [[a| |] w1]; cbn in *; [|done..].
  destruct (Hk a w1) as (-> & -> & ->). done.
Qed.

Lemma quiet_for_fold {A S} (f : S → A → M S) (l : list A) (s : S) :
  (∀ s x, quiet (f s x)) → quiet (for_fold l f s).
Proof.
  intros Hf. revert s. induction l as [|x l IH]; intros s.
  - apply quiet_ret.
  - apply quiet_bind; [apply Hf|apply IH].
Qed.

Lemma quiet_create_row (args : Args) (owner repo token : string)
    (milestone_number : option Z) (st : Maps) (r : Row) :
  dry_run args = true →
  quiet (create_row args owner repo token milestone_number st r).
Proof.
  intros Hdry. unfold create_row. rewrite Hdry.
  apply quiet_bind; [apply quiet_print|]. intros _. apply quiet_ret.
Qed.

(** In a dry run [main] sends nothing, whatever it is given. *)
Lemma quiet_main (fuel : nat) (args : Args) :
  dry_run args = true → quiet (main fuel args).
Proof.
  intros Hdry. unfold main, first_pass, sys_exit. rewrite Hdry. cbn [negb].
  apply quiet_bind; [apply quiet_os_environ_get|]. intros repo_full.
  apply quiet_bind; [apply quiet_os_environ_get|]. intros token.
  destruct (_ || _).
  { apply quiet_bind; [apply quiet_print_stderr|]. intros _.
    apply quiet_raise. }
  apply quiet_bind; [apply quiet_lift|]. intros [owner repo].
  apply quiet_bind; [apply quiet_parse_csv|]. intros rows.
  apply quiet_bind; [apply quiet_print|]. intros _.
  apply quiet_bind.
  { destruct (truthy _); [|apply quiet_ret].
    apply quiet_bind; [apply quiet_print|]. intros _. apply quiet_ret. }
  intros milestone_number.
  apply quiet_bind; [apply quiet_print|]. intros _.
  apply quiet_bind; [|intros st; apply quiet_print].
  apply quiet_for_fold. intros st r. by apply quiet_create_row.
Qed.

Lemma printed_nil (w : World) : printed w [] = w.
Proof. destruct w. unfold printed. cbn. by rewrite app_nil_r. Qed.

Lemma printed_printed (w : World) (a b : list Line) :
  printed (printed w a) b = printed w (a ++ b).
Proof. unfold printed. cbn. by rewrite app_assoc. Qed.

Lemma print_printed (ln : Line) (w : World) :
  print ln w = (Ok tt, printed w [ln]).
Proof. reflexivity. Qed.

Lemma create_row_dry (args : Args) (owner repo token : string)
    (milestone_number : option Z) (st : Maps) (r : Row) (w : World) :
  dry_run args = true →
  ∃ st1,
    create_row args owner repo token milestone_number st r w
    = (Ok st1, printed w [DryIssue (api_title r) (labels r)]).
Proof. intros Hdry. unfold create_row. rewrite Hdry. eexists. reflexivity. Qed.

(** The creation pass of a dry run always ends normally and prints one line
    for each row. *)
Lemma for_fold_create_dry (args : Args) (owner repo token : string)
    (milestone_number : option Z) (rows : list Row) (st : Maps) (w : World) :
  dry_run args = true →
  ∃ st1,
    for_fold rows (create_row args owner repo token milestone_number) st w
    = (Ok st1,
       printed w (map (λ r, DryIssue (api_title r) (labels r)) rows)).
Proof.
  intros Hdry. revert st w. induction rows as [|r rows IH]; intros st w.
  - exists st. cbn. by rewrite printed_nil.
  - cbn [for_fold map].
    destruct (create_row_dry args owner repo token milestone_number st r w
                Hdry) as [st0 Hr].
    rewrite (bind_Ok _ _ _ _ _ Hr).
    edestruct IH as [st1 ->]. exists st1. by rewrite printed_printed.
Qed.

Lemma first_pass_dry_placeholders (args : Args) (owner repo token : string)
    (milestone_number : option Z) (rows : list Row) (st : Maps)
    (w w1 : World) :
  dry_run args = true →
  first_pass args owner repo token milestone_number rows w = (Ok st, w1) →
  ∀ r : Row, r ∈ rows → id_to_issue st !! (r !! "ID") = Some (placeholder r).
Proof.
  intros Hdry H.
  refine (for_fold_invariant _
            (λ seen s, ∀ r : Row, r ∈ seen →
                         id_to_issue s !! (r !! "ID") = Some (placeholder r))
            rows _ [] no_maps w st w1 _ H).
  - intros seen r0 s w0 s1 w2 _ Hs Hc r Hr.
    apply create_row_Ok in Hc as (_ & _ & v & -> & Hv & _).
    rewrite (Hv Hdry). apply elem_of_app in Hr as [Hr|Hr].
    + destruct (decide (r0 !! "ID" = r !! "ID")) as [Heq|Hne].
      * rewrite Heq, lookup_insert_eq. reflexivity.
      * rewrite lookup_insert_ne by done. by apply Hs.
    + apply list_elem_of_singleton in Hr as ->. by rewrite lookup_insert_eq.
  - intros r Hr. by apply elem_of_nil in Hr.
Qed.

(** A dry run over a readable file, with the configuration in place, ends
    normally: it prints what it would do and stops before the linking. *)
Lemma main_dry (fuel : nat) (args : Args) (w : World)
    (repo_full token owner repo : string) (records : list (list string))
    (rows : list Row) :
  dry_run args = true →
  environ w !! "GITHUB_REPOSITORY" = Some repo_full → repo_full ≠ "" →
  environ w !! "GITHUB_TOKEN" = Some token → token ≠ "" →
  unpack2 (split_first "/" repo_full) = Ok (owner, repo) →
  files w !! csv args = Some records →
  stripped_rows (DictReader records) = Ok rows →
  main fuel args w = (Ok tt, printed w (dry_lines args rows)).
Proof.
  intros Hdry Hrepo Hrepo' Htoken Htoken' Hsplit Hfile Hrows.
  unfold main. rewrite Hdry. cbn [negb].
  rewrite (bind_Ok _ _ w w (Some repo_full))
    by (unfold os_environ_get; by rewrite Hrepo).
  rewrite (bind_Ok _ _ w w (Some token))
    by (unfold os_environ_get; by rewrite Htoken).
  cbn [truthy_opt default from_option id]. unfold truthy at 1 2.
  rewrite (proj2 (String.eqb_neq repo_full "")) by done.
  rewrite (proj2 (String.eqb_neq token "")) by done. cbn [negb orb].
  rewrite Hsplit.
  rewrite (bind_Ok _ _ w w (owner, repo)) by reflexivity.
  rewrite (bind_Ok _ _ w w rows)
    by (unfold parse_csv; by rewrite Hfile, Hrows).
  rewrite (bind_Ok _ _ _ _ _ (print_printed _ _)).
  unfold dry_lines, first_pass.
  destruct (truthy (milestone args)).
  - rewrite (bind_Ok _ _ _
               (printed (printed w [Loaded (length rows) (csv args)])
                  [DryMilestone (milestone args)]) None) by reflexivity.
    rewrite (bind_Ok _ _ _ _ _ (print_printed _ _)).
    edestruct (for_fold_create_dry args owner repo token None rows no_maps)
      as [st Hst]; [exact Hdry|].
    rewrite (bind_Ok _ _ _ _ _ Hst), print_printed, !printed_printed.
    rewrite <- ?app_assoc. reflexivity.
  - rewrite (bind_Ok _ _ _ (printed w [Loaded (length rows) (csv args)]) None)
      by reflexivity.
    rewrite (bind_Ok _ _ _ _ _ (print_printed _ _)).
    edestruct (for_fold_create_dry args owner repo token None rows no_maps)
      as [st Hst]; [exact Hdry|].
    rewrite (bind_Ok _ _ _ _ _ Hst), print_printed, !printed_printed.
    rewrite <- ?app_assoc. reflexivity.
Qed.

(** C2, as the specification states it, fails: two rows with the same local
    identifier are given the same placeholder, under the same key of the
    Local-to-Remote Map. *)
Lemma C2_placeholders_not_distinct :
  ¬ (∀ (args : Args) (owner repo token : string) (milestone_number : option Z)
       (rows : list Row) (w : World) (st : Maps) (w1 : World)
       (i j : nat) (ri rj : Row),
       dry_run args = true →
       first_pass args owner repo token milestone_number rows w = (Ok st, w1) →
       rows !! i = Some ri → rows !! j = Some rj → i ≠ j →
       id_to_issue st !! (ri !! "ID") ≠ id_to_issue st !! (rj !! "ID")).
Proof.
  intros H.
  eapply (H dry_args "acme" "app" "secret" None twin_rows sample_world _ _
            0%nat 1%nat);
    [reflexivity|vm_compute; reflexivity|reflexivity|reflexivity|
     discriminate|reflexivity].
Qed.

(** C2, amended.  In a dry run [main] sends no request of any kind and
    leaves the service as it is, whatever its input; the creation pass gives
    every row the placeholder made of DRY- and its local identifier, which
    differs for rows whose identifiers differ; and the run prints what it
    would do and stops before the linking. *)
Theorem C2_dry_run (fuel : nat) (args : Args) :
  dry_run args = true →
  quiet (main fuel args)
  ∧ (∀ owner repo token milestone_number rows w,
       ∃ st w1,
         first_pass args owner repo token milestone_number rows w = (Ok st, w1)
         ∧ ∀ r : Row, r ∈ rows →
             id_to_issue st !! (r !! "ID") = Some (placeholder r))
  ∧ (∀ (r1 r2 : Row) a b,
       r1 !! "ID" = Some a → r2 !! "ID" = Some b → a ≠ b →
       placeholder r1 ≠ placeholder r2)
  ∧ (∀ w repo_full token owner repo records rows,
       environ w !! "GITHUB_REPOSITORY" = Some repo_full → repo_full ≠ "" →
       environ w !! "GITHUB_TOKEN" = Some token → token ≠ "" →
       unpack2 (split_first "/" repo_full) = Ok (owner, repo) →
       files w !! csv args = Some records →
       stripped_rows (DictReader records) = Ok rows →
       main fuel args w = (Ok tt, printed w (dry_lines args rows))).
Proof.
  intros Hdry. split; [by apply quiet_main|]. split; [|split].
  - intros owner repo token milestone_number rows w.
    destruct (for_fold_create_dry args owner repo token milestone_number
                rows no_maps w Hdry) as [st Hst].
    eexists st, _. split; [exact Hst|].
    by apply (first_pass_dry_placeholders _ _ _ _ _ _ _ _ _ Hdry Hst).
  - intros r1 r2 a b H1 H2 Hne. unfold placeholder. rewrite H1, H2.
    intros [= Heq]. by apply Hne.
  - intros w repo_full token owner repo records rows. by apply main_dry.
Qed.

Lemma C2_dry_run_witness :
  main 0 dry_args sample_world
  = (Ok tt, printed sample_world (dry_lines dry_args sample_rows)).
Proof.
  apply (proj2 (proj2 (proj2 (C2_dry_run 0 dry_args eq_refl)))
           sample_world "acme/app" "secret" "acme" "app" sample_records);
    (reflexivity || discriminate || (vm_compute; reflexivity)).
Defined.

(** ** Milestones *)

(** When the first page of the listing has a milestone with the wanted
    title and the request goes through, [ensure_milestone] returns the number
    of the first such milestone and creates nothing. *)
Lemma ensure_milestone_first_page (owner repo name token : string)
    (w : World) (m : Milestone) :
  head (faults w) = None ∨ head (faults w) = Some NoFault →
  List.find (λ m, String.eqb (ms_title m) name)
    (firstn 100 (milestones (remote w))) = Some m →
  ensure_milestone owner repo name token w
  = (Ok (ms_number m),
     exchanged w (remote w)
       {| x_headers := gh_headers token;
          x_request := Sent (GET_milestones owner repo);
          x_error := None |}).
Proof.
  intros Hfault Hfind. unfold ensure_milestone.
  assert (requests_send (gh_headers token) (GET_milestones owner repo) w
          = (Ok (Success (firstn 100 (milestones (remote w)))),
             exchanged w (remote w)
               {| x_headers := gh_headers token;
                  x_request := Sent (GET_milestones owner repo);
                  x_error := None |})) as Hsend.
  { unfold requests_send. destruct Hfault as [-> | ->]; reflexivity. }
  rewrite (bind_Ok _ _ _ _ _ Hsend).
  erewrite bind_Ok by reflexivity. erewrite bind_Ok by reflexivity.
  by rewrite Hfind.
Qed.

(** X10.  When a milestone of the first page has the wanted title,
    [ensure_milestone], called twice in a row with no fault pending, returns
    the number of the first such milestone both times, and the repository is
    what it was. *)
Lemma ensure_milestone_twice (owner repo name token : string)
    (w : World) (m : Milestone) :
  faults w = [] →
  List.find (λ m, String.eqb (ms_title m) name)
    (firstn 100 (milestones (remote w))) = Some m →
  ∃ w1 w2,
    ensure_milestone owner repo name token w = (Ok (ms_number m), w1)
    ∧ ensure_milestone owner repo name token w1 = (Ok (ms_number m), w2)
    ∧ remote w2 = remote w.
Proof.
  intros Hfaults Hfind. eexists _, _. split; [|split].
  - apply ensure_milestone_first_page; [left; by rewrite Hfaults|exact Hfind].
  - apply ensure_milestone_first_page; cbn; [left; by rewrite Hfaults|].
    exact Hfind.
  - reflexivity.
Qed.

(** C1 fails on the code.  The repository has a milestone [Sprint 1], the
    101st of the listing; [ensure_milestone] reads the first page only, does
    not find it and asks the service to create it.  If the service creates
    it, the number of the new milestone is returned, not that of the one
    that was there, and the title is there twice; if the service refuses,
    the refusal is raised. *)
Theorem C1_ensure_milestone_misses_second_page :
  sprint_1 ∈ milestones (remote crowded_world)
  ∧ (∃ w1,
       ensure_milestone "acme" "app" "Sprint 1" "secret" crowded_world
       = (Ok 102, w1)
       ∧ map x_request (transcript w1)
         = [Sent (GET_milestones "acme" "app");
            Sent (POST_milestones "acme" "app" "Sprint 1" "open")]
       ∧ List.filter (λ m, String.eqb (ms_title m) "Sprint 1")
           (milestones (remote w1))
         = [sprint_1;
            {| ms_number := 102; ms_title := "Sprint 1"; ms_state := "open" |}])
  ∧ (∃ w1,
       ensure_milestone "acme" "app" "Sprint 1" "secret" refusing_world
       = (Raise (HTTPError 422), w1)
       ∧ map x_request (transcript w1)
         = [Sent (GET_milestones "acme" "app");
            Sent (POST_milestones "acme" "app" "Sprint 1" "open")]).
Proof.
  split; [|split].
  - unfold crowded_world. cbn [remote milestones].
    apply elem_of_app. right. left.
  - eexists. split; [vm_compute; reflexivity|]. split; vm_compute; reflexivity.
  - eexists. split; [vm_compute; reflexivity|]. vm_compute; reflexivity.
Qed.

Lemma ensure_milestone_twice_witness :
  ∃ w1 w2,
    ensure_milestone "acme" "app" "Sprint 1" "secret" sprint_world
    = (Ok 101, w1)
    ∧ ensure_milestone "acme" "app" "Sprint 1" "secret" w1 = (Ok 101, w2)
    ∧ remote w2 = remote sprint_world.
Proof.
  apply (ensure_milestone_twice "acme" "app" "Sprint 1" "secret" sprint_world
           sprint_1); reflexivity.
Defined.

(** ** The page loop of [list_labels] ends *)

Lemma list_labels_from_fuel (fuel : nat) (owner repo token : string)
    (acc : gmap string string) (page : Z) (w : World) :
  1 ≤ page →
  (length (skipn (100 * Z.to_nat (page - 1)) (remote_labels (remote w)))
   < fuel)%nat →
  (list_labels_from fuel owner repo token acc page w).1 ≠ OutOfFuel.
Proof.
  revert acc page w. induction fuel as [|fuel IH]; intros acc page w Hp Hlen.
  { lia. }
  cbn [list_labels_from]. unfold mbind, M_bind, requests_send.
  assert (∀ x,
    (match page_of 100 page (remote_labels (remote w)) with
     | [] => mret acc
     | _ :: _ =>
         list_labels_from fuel owner repo token
           (foldl (λ labels l, <[lb_name l := lb_color l]> labels) acc
              (page_of 100 page (remote_labels (remote w)))) (page + 1)
     end (exchanged w (remote w) x)).1 ≠ OutOfFuel) as Hnext.
  { intros x. unfold page_of. rewrite (proj2 (Z.ltb_ge page 1)) by lia.
    destruct (firstn 100 _) as [|l data] eqn:Edata; [done|].
    apply IH; [lia|]. cbn [remote exchanged].
    replace (Z.to_nat (page + 1 - 1)) with (S (Z.to_nat (page - 1))) by lia.
    rewrite length_skipn in *.
    assert (length (skipn (100 * Z.to_nat (page - 1))
                      (remote_labels (remote w))) ≠ 0)%nat as Hne.
    { intros Hz. apply nil_length_inv in Hz. rewrite Hz in Edata.
      discriminate. }
    rewrite length_skipn in Hne. lia. }
  destruct (head (faults w)) as [[| |c]|]; cbn; try done; apply Hnext.
Qed.

(** With more fuel than the repository has labels, [list_labels] returns a
    dictionary or raises: the bound of the model is not reached. *)
Lemma list_labels_enough_fuel (fuel : nat) (owner repo token : string)
    (w : World) :
  (length (remote_labels (remote w)) < fuel)%nat →
  (list_labels fuel owner repo token w).1 ≠ OutOfFuel.
Proof.
  intros Hlen. apply list_labels_from_fuel; [done|]. exact Hlen.
Qed.

Lemma list_labels_enough_fuel_witness :
  (list_labels 1 "acme" "app" "secret" sample_world).1 ≠ OutOfFuel.
Proof.
  apply (list_labels_enough_fuel 1 "acme" "app" "secret" sample_world).
  cbn. lia.
Defined.

(** ** The end-to-end example of the specification *)

(** Three rows, P1 without parent, P2 and P3 with parent P1, P3 depending on
    P2: three issues are created; the body of P1 gains the list of its
    subtasks, that of P3 a Dependencies block that refers to P2 and a Parent
    line that refers to P1. *)
Example end_to_end :
  ∃ w1,
    main 1 real_args sample_world = (Ok tt, w1)
    ∧ map (λ i, (is_number i, is_title i, is_body i)) (issues (remote w1))
      = [ (1, "Epic",
           Some ("**Milestone:** Sprint 1" +:+ nl +:+ nl +:+ nl +:+ nl +:+
                 "### Subtasks" +:+ nl +:+ "- [ ] #2 — Child a" +:+ nl +:+
                 "- [ ] #3 — Child b"));
          (2, "Child a",
           Some ("**Milestone:** Sprint 1" +:+ nl +:+ nl +:+ nl +:+ nl +:+
                 "**Parent:** #1"));
          (3, "Child b",
           Some ("**Milestone:** Sprint 1" +:+ nl +:+ nl +:+ nl +:+ nl +:+
                 "### Dependencies" +:+ nl +:+ "- [ ] Blocked by #2" +:+
                 nl +:+ nl +:+ "**Parent:** #1")) ].
Proof. eexists. split; vm_compute; reflexivity. Qed.

(** ** The Dependency Map *)

Lemma deps_invariant_step (args : Args) (owner repo token : string)
    (milestone_number : option Z) (seen : list Row) (r : Row)
    (st : Maps) (w : World) (st1 : Maps) (w1 : World) :
  deps_invariant seen st →
  create_row args owner repo token milestone_number st r w = (Ok st1, w1) →
  deps_invariant (seen ++ [r]) st1.
Proof.
  intros Hinv H k Hk. apply create_row_Ok in H as (_ & Hd & _).
  rewrite Hd in Hk.
  assert (k = r !! "ID" ∨ is_Some (deps_map st !! k)) as [->|Hk'].
  { destruct (deps r); [by right|].
    apply lookup_insert_is_Some in Hk as [<-|[_ Hk]]; [by left|by right]. }
  - exists r. split; [|done]. apply elem_of_app. right. left.
  - destruct (Hinv k Hk') as (r0 & ? & ?).
    exists r0. split; [|done]. apply elem_of_app. by left.
Qed.

(** X15.  The entry of the Dependency Map for a row whose local identifier
    no other row carries is the dependency list of the row, the empty list
    standing for a missing entry. *)
Lemma deps_map_entry (args : Args) (owner repo token : string)
    (milestone_number : option Z) (before : list Row) (r : Row)
    (after : list Row) (st : Maps) (w w1 : World) :
  first_pass args owner repo token milestone_number (before ++ r :: after) w
  = (Ok st, w1) →
  (∀ r' : Row, r' ∈ before ++ after → r' !! "ID" ≠ r !! "ID") →
  default [] (deps_map st !! (r !! "ID")) = deps r.
Proof.
  intros H Hother. unfold first_pass in H. rewrite for_fold_app in H.
  apply bind_Ok_inv in H as (st0 & w0 & Hbefore & H).
  cbn [for_fold] in H. apply bind_Ok_inv in H as (st1 & w2 & Hr & H).
  assert (deps_map st0 !! (r !! "ID") = None) as Hnone.
  { apply eq_None_not_Some. intros Hsome.
    assert (deps_invariant ([] ++ before) st0) as Hinv.
    { refine (for_fold_invariant _ deps_invariant before _ []
                no_maps w st0 w0 _ Hbefore).
      - intros seen r0 s w3 s1 w4 _. apply deps_invariant_step.
      - intros k [l Hk]. cbn [deps_map no_maps] in Hk.
        by rewrite lookup_empty in Hk. }
    destruct (Hinv _ Hsome) as (r0 & Hr0 & Hid).
    apply (Hother r0); [|done]. apply elem_of_app. by left. }
  assert (default [] (deps_map st1 !! (r !! "ID")) = deps r) as Hst1.
  { apply create_row_Ok in Hr as (_ & -> & _).
    destruct (deps r); [by rewrite Hnone|by rewrite lookup_insert_eq]. }
  rewrite <- Hst1. f_equal.
  refine (for_fold_invariant _
            (λ _ s, deps_map s !! (r !! "ID") = deps_map st1 !! (r !! "ID"))
            after _ [] st1 w2 st w1 eq_refl H).
  intros _ r' s w3 s1 w4 Hr' Hs Hc. rewrite <- Hs.
  apply create_row_Ok in Hc as (_ & -> & _).
  destruct (deps r'); [done|]. apply lookup_insert_ne.
  apply Hother. apply elem_of_app. by right.
Qed.

Lemma deps_map_entry_witness :
  ∃ st w1,
    first_pass dry_args "acme" "app" "secret" None sample_rows sample_world
    = (Ok st, w1)
    ∧ default [] (deps_map st !! (row_P3 !! "ID")) = ["P2"].
Proof.
  eexists _, _. split; [vm_compute; reflexivity|].
  eapply eq_trans.
  - eapply (deps_map_entry dry_args "acme" "app" "secret" None
              [row_P1; row_P2] row_P3 [] _ sample_world);
      [vm_compute; reflexivity|].
    intros r' Hr'. rewrite app_nil_r in Hr'.
    apply elem_of_cons in Hr' as [->|Hr'];
      [|apply list_elem_of_singleton in Hr' as ->]; vm_compute; discriminate.
  - vm_compute. reflexivity.
Defined.

(** * Further properties *)

(** ** Loading the rows *)

Lemma zip_cells_lookup (fieldnames row : list string) (i : nat) (k : string) :
  fieldnames !! i = Some k →
  zip_cells fieldnames row !! i = Some (k, row !! i).
Proof.
  revert row i. induction fieldnames as [|k0 ks IH]; intros row i Hk.
  - by rewrite lookup_nil in Hk.
  - destruct i as [|i], row as [|v row]; cbn [zip_cells].
    + by injection Hk as ->.
    + by injection Hk as ->.
    + change (zip_cells ks [] !! i = Some (k, None)).
      by rewrite (IH [] i Hk), lookup_nil.
    + exact (IH row i Hk).
Qed.

Lemma foldl_insert_lookup {V} (g : option string → V)
    (l : list (string * option string)) (d : gmap string V) (k : string)
    (v : option string) :
  NoDup (map fst l) → (k, v) ∈ l →
  foldl (λ (d : gmap string V) kv, <[kv.1 := g kv.2]> d) d l !! k
  = Some (g v).
Proof.
  revert d. induction l as [|[k1 v1] l IH]; intros d Hnd Hin.
  - by apply elem_of_nil in Hin.
  - cbn [map fst] in Hnd. apply NoDup_cons in Hnd as [Hk1 Hnd].
    cbn [foldl]. apply elem_of_cons in Hin as [Hin|Hin].
    + injection Hin as <- <-.
      assert (∀ l' (d' : gmap string V), k ∉ map fst l' →
                foldl (λ (d : gmap string V) kv, <[kv.1 := g kv.2]> d) d' l'
                  !! k = d' !! k) as Hkeep.
      { induction l' as [|[k2 v2] l' IH']; intros d' Hk; [done|].
        cbn [foldl map fst] in *. apply not_elem_of_cons in Hk as [Hne Hk].
        rewrite IH' by done. cbn. by rewrite lookup_insert_ne. }
      rewrite Hkeep by done. cbn. by rewrite lookup_insert_eq.
    + by apply IH.
Qed.

Lemma stripped_Ok (fieldnames row : list string) :
  (length row ≤ length fieldnames)%nat →
  ∃ r : Row,
    stripped {| cells := zip_cells fieldnames row;
                surplus := skipn (length fieldnames) row |} = Ok r
    ∧ (∀ k, is_Some (r !! k) ↔ k ∈ fieldnames)
    ∧ (NoDup fieldnames →
       ∀ i k, fieldnames !! i = Some k →
              r !! k = Some (strip (default "" (row !! i)))).
Proof.
  intros Hlen. unfold stripped. cbn [cells surplus].
  rewrite skipn_all2 by lia. eexists. split; [reflexivity|]. split.
  - intros k.
    rewrite (foldl_insert_keys (λ o, strip (default "" o))), lookup_empty.
    rewrite zip_cells_keys. split; [intros [[? ?]|?]; done|by right].
  - intros Hnd i k Hk.
    apply (foldl_insert_lookup (λ o, strip (default "" o))).
    + by rewrite zip_cells_keys.
    + apply list_elem_of_lookup. exists i. by apply zip_cells_lookup.
Qed.

Lemma stripped_rows_Ok (fieldnames : list string)
    (records : list (list string)) :
  (∀ row, row ∈ records → (length row ≤ length fieldnames)%nat) →
  ∃ rows,
    stripped_rows
      (map (λ row, {| cells := zip_cells fieldnames row;
                      surplus := skipn (length fieldnames) row |}) records)
    = Ok rows
    ∧ Forall2 (λ row (r : Row),
        (∀ k, is_Some (r !! k) ↔ k ∈ fieldnames)
        ∧ (NoDup fieldnames →
           ∀ i k, fieldnames !! i = Some k →
                  r !! k = Some (strip (default "" (row !! i)))))
        records rows.
Proof.
  induction records as [|row records IH]; intros Hlen.
  - exists []. split; [reflexivity|constructor].
  - destruct (stripped_Ok fieldnames row) as (r & Hr & Hkeys & Hvals).
    { apply Hlen. left. }
    destruct IH as (rows & Hrows & Hall).
    { intros row' Hrow'. apply Hlen. by right. }
    exists (r :: rows). cbn [map stripped_rows]. rewrite Hr, Hrows.
    split; [reflexivity|]. by constructor.
Qed.

(** X1.  [parse_csv] on a readable file none of whose records is longer than
    the header returns, unchanged world, one row for each record that is not
    empty, in order; each row has exactly the columns of the header and,
    when the header names are distinct, under each of them the stripped
    cell, the empty string if the record is too short for the column. *)
Theorem parse_csv_rows (path : string) (w : World)
    (fieldnames : list string) (records : list (list string)) :
  files w !! path = Some (fieldnames :: records) →
  (∀ row, row ∈ records → (length row ≤ length fieldnames)%nat) →
  ∃ rows,
    parse_csv path w = (Ok rows, w)
    ∧ Forall2 (λ row (r : Row),
        (∀ k, is_Some (r !! k) ↔ k ∈ fieldnames)
        ∧ (NoDup fieldnames →
           ∀ i k, fieldnames !! i = Some k →
                  r !! k = Some (strip (default "" (row !! i)))))
        (List.filter (λ row, match row with [] => false | _ => true end)
           records)
        rows.
Proof.
  intros Hfile Hlen. unfold parse_csv. rewrite Hfile. cbn [DictReader].
  destruct (stripped_rows_Ok fieldnames
              (List.filter (λ row, match row with [] => false | _ => true end)
                 records)) as (rows & -> & Hall).
  { intros row Hrow. apply Hlen. apply list_elem_of_In.
    apply list_elem_of_In in Hrow. by apply filter_In in Hrow as [? _]. }
  by exists rows.
Qed.

Lemma parse_csv_rows_witness :
  ∃ rows,
    parse_csv "/tmp/short.csv" files_world = (Ok rows, files_world)
    ∧ length rows = 2%nat
    ∧ Forall (λ r : Row, is_Some (r !! "Labels")) rows.
Proof.
  edestruct (parse_csv_rows "/tmp/short.csv" files_world)
    as (rows & Hrows & Hall); [reflexivity| |].
  - intros row Hrow. repeat (apply elem_of_cons in Hrow as [->|Hrow]);
      [cbn; lia..|by apply elem_of_nil in Hrow].
  - exists rows. split; [exact Hrows|]. split.
    + by rewrite <- (Forall2_length _ _ _ Hall).
    + apply Forall2_Forall_r with (1 := Hall). apply Forall_forall.
      intros row _ r [Hkeys _]. apply Hkeys. right. right. left.
Defined.

Lemma stripped_rows_long (fieldnames : list string)
    (records : list (list string)) (row : list string) :
  row ∈ records → (length fieldnames < length row)%nat →
  stripped_rows
    (map (λ row, {| cells := zip_cells fieldnames row;
                    surplus := skipn (length fieldnames) row |}) records)
  = Raise AttributeError.
Proof.
  intros Hin Hlong. induction records as [|row0 records IH].
  - by apply elem_of_nil in Hin.
  - cbn [map stripped_rows]. unfold stripped at 1. cbn [cells surplus].
    destruct (skipn (length fieldnames) row0) as [|c cs] eqn:Hrest;
      [|reflexivity].
    cbn [mbind Result_bind].
    apply elem_of_cons in Hin as [->|Hin].
    + apply (f_equal length) in Hrest. rewrite length_skipn in Hrest.
      cbn in Hrest. lia.
    + by rewrite (IH Hin).
Qed.

(** X2.  [parse_csv] raises [FileNotFoundError] for a path that cannot be
    read, and [AttributeError] as soon as one record of the file has more
    cells than the header: the surplus cells come as a list, which has no
    [strip].  In both cases nothing else happens. *)
Theorem parse_csv_errors (path : string) (w : World) :
  (files w !! path = None →
   parse_csv path w = (Raise (FileNotFoundError path), w))
  ∧ (∀ fieldnames records row,
       files w !! path = Some (fieldnames :: records) →
       row ∈ records → (length fieldnames < length row)%nat →
       parse_csv path w = (Raise AttributeError, w)).
Proof.
  split.
  - intros Hfile. unfold parse_csv. by rewrite Hfile.
  - intros fieldnames records row Hfile Hin Hlong.
    unfold parse_csv. rewrite Hfile. cbn [DictReader].
    rewrite (stripped_rows_long fieldnames _ row); [done| |done].
    apply list_elem_of_In, filter_In. split; [by apply list_elem_of_In|].
    destruct row; [cbn in Hlong; lia|done].
Qed.

Lemma parse_csv_errors_witness :
  parse_csv "/tmp/long.csv" files_world = (Raise AttributeError, files_world)
  ∧ parse_csv "/tmp/none.csv" files_world
    = (Raise (FileNotFoundError "/tmp/none.csv"), files_world).
Proof.
  split.
  - apply (proj2 (parse_csv_errors "/tmp/long.csv" files_world)
             ["ID"; "Title"] [["L1"; "Long"; "surplus"]]
             ["L1"; "Long"; "surplus"]); [reflexivity|left|cbn; lia].
  - apply (proj1 (parse_csv_errors "/tmp/none.csv" files_world)).
    reflexivity.
Defined.

(** ** [main] stops early *)

Lemma split_first_without (sep : ascii) (s : string) :
  without sep s → split_first sep s = [s].
Proof.
  unfold without. induction s as [|c s IH]; intros H; [reflexivity|].
  cbn [split_first list_ascii_of_string] in *.
  rewrite (proj2 (Ascii.eqb_neq c sep)) by (intros ->; apply H; by left).
  rewrite IH; [reflexivity|]. intros Hin. apply H. by right.
Qed.

Lemma split_first_at (sep : ascii) (a b : string) :
  without sep a → split_first sep (a +:+ String sep b) = [a; b].
Proof.
  unfold without. induction a as [|c a IH]; intros H.
  - change (split_first sep (String sep b) = [""; b]).
    cbn [split_first]. by rewrite Ascii.eqb_refl.
  - change (split_first sep (String c (a +:+ String sep b))
            = [String c a; b]).
    cbn [split_first list_ascii_of_string] in *.
    rewrite (proj2 (Ascii.eqb_neq c sep)) by (intros ->; apply H; by left).
    rewrite IH; [reflexivity|]. intros Hin. apply H. by right.
Qed.

(** X3.  Without a repository name or without a token in the environment,
    empty values included, [main] prints its complaint on the error stream
    and exits with status 1, in either mode: no file is read, no request is
    sent, nothing is printed on the output. *)
Theorem main_missing_configuration (fuel : nat) (args : Args) (w : World) :
  truthy_opt (environ w !! "GITHUB_REPOSITORY") = false
  ∨ truthy_opt (environ w !! "GITHUB_TOKEN") = false →
  main fuel args w = (Raise (SystemExit 1), complained w [EnvMissing]).
Proof.
  intros H. unfold main.
  rewrite (bind_Ok _ _ w w (environ w !! "GITHUB_REPOSITORY")) by reflexivity.
  rewrite (bind_Ok _ _ w w (environ w !! "GITHUB_TOKEN")) by reflexivity.
  destruct H as [-> | ->]; cbn [negb orb]; [reflexivity|].
  rewrite orb_true_r. reflexivity.
Qed.

Lemma main_missing_configuration_witness :
  main 1 real_args no_token_world
  = (Raise (SystemExit 1), complained no_token_world [EnvMissing]).
Proof.
  apply (main_missing_configuration 1 real_args no_token_world).
  right. reflexivity.
Defined.

(** X4.  [main] cuts the repository name at its first slash: what precedes
    is the owner, all that follows the repository.  A name without slash
    makes it raise [ValueError], in either mode, before it reads the file or
    sends anything. *)
Theorem main_repository_name (fuel : nat) (args : Args) (w : World)
    (repo_full token : string) :
  environ w !! "GITHUB_REPOSITORY" = Some repo_full → repo_full ≠ "" →
  environ w !! "GITHUB_TOKEN" = Some token → token ≠ "" →
  (without "/" repo_full → main fuel args w = (Raise ValueError, w))
  ∧ (∀ owner repo,
       repo_full = owner +:+ String "/" repo → without "/" owner →
       unpack2 (split_first "/" repo_full) = Ok (owner, repo)).
Proof.
  intros Hrepo Hrepo' Htoken Htoken'. split.
  - intros Hslash. unfold main.
    rewrite (bind_Ok _ _ w w (Some repo_full))
      by (unfold os_environ_get; by rewrite Hrepo).
    rewrite (bind_Ok _ _ w w (Some token))
      by (unfold os_environ_get; by rewrite Htoken).
    cbn [truthy_opt default from_option id]. unfold truthy at 1 2.
    rewrite (proj2 (String.eqb_neq repo_full "")) by done.
    rewrite (proj2 (String.eqb_neq token "")) by done. cbn [negb orb].
    rewrite split_first_without by done. reflexivity.
  - intros owner repo -> Hslash. by rewrite split_first_at.
Qed.

Lemma main_repository_name_witness :
  main 1 real_args no_slash_world = (Raise ValueError, no_slash_world)
  ∧ unpack2 (split_first "/" "acme/app/x") = Ok ("acme", "app/x").
Proof.
  split.
  - apply (main_repository_name 1 real_args no_slash_world "acme" "secret");
      [reflexivity|discriminate|reflexivity|discriminate|].
    vm_compute. intros H. repeat destruct H as [H|H]; discriminate || done.
  - apply (main_repository_name 1 real_args nested_world "acme/app/x"
             "secret");
      [reflexivity|discriminate|reflexivity|discriminate|reflexivity|].
    vm_compute. intros H. repeat destruct H as [H|H]; discriminate || done.
Defined.

(** X5.  [main] loads the file before it prints or sends anything: when
    [parse_csv] raises, [main] raises the same exception, in either mode,
    and the world is as it was. *)
Theorem main_unreadable_file (fuel : nat) (args : Args) (w : World)
    (repo_full token owner repo : string) (e : Exn) :
  environ w !! "GITHUB_REPOSITORY" = Some repo_full → repo_full ≠ "" →
  environ w !! "GITHUB_TOKEN" = Some token → token ≠ "" →
  unpack2 (split_first "/" repo_full) = Ok (owner, repo) →
  parse_csv (csv args) w = (Raise e, w) →
  main fuel args w = (Raise e, w).
Proof.
  intros Hrepo Hrepo' Htoken Htoken' Hsplit Hparse. unfold main.
  rewrite (bind_Ok _ _ w w (Some repo_full))
    by (unfold os_environ_get; by rewrite Hrepo).
  rewrite (bind_Ok _ _ w w (Some token))
    by (unfold os_environ_get; by rewrite Htoken).
  cbn [truthy_opt default from_option id]. unfold truthy at 1 2.
  rewrite (proj2 (String.eqb_neq repo_full "")) by done.
  rewrite (proj2 (String.eqb_neq token "")) by done. cbn [negb orb].
  rewrite Hsplit. rewrite (bind_Ok _ _ w w (owner, repo)) by reflexivity.
  unfold mbind at 1, M_bind at 1. by rewrite Hparse.
Qed.

Lemma main_unreadable_file_witness :
  main 1 {| csv := "/tmp/long.csv"; milestone := "Sprint 1"; assignee := "";
            dry_run := false |} files_world
  = (Raise AttributeError, files_world).
Proof.
  apply (main_unreadable_file 1 _ files_world "acme/app" "secret" "acme"
           "app" AttributeError);
    [reflexivity|discriminate|reflexivity|discriminate|reflexivity|].
  vm_compute. reflexivity.
Defined.

(** ** The labels of the rows *)

Lemma truthy_opt_get (r : Row) (k : string) :
  truthy_opt (r !! k) = truthy (get_or_empty r k).
Proof. unfold get_or_empty. by destruct (r !! k). Qed.

Lemma truthy_spec (s : string) : truthy s = true ↔ s ≠ "".
Proof.
  unfold truthy. destruct (String.eqb s "") eqn:E.
  - apply String.eqb_eq in E. split; [discriminate|done].
  - apply String.eqb_neq in E. done.
Qed.

Lemma foldl_add_labels (l : list string) (acc : gset string) (x : string) :
  x ∈ foldl (λ (all_labels : gset string) lab,
               if truthy lab then all_labels ∪ {[lab]} else all_labels) acc l
  ↔ x ∈ acc ∨ x ∈ List.filter truthy l.
Proof.
  revert acc. induction l as [|y l IH]; intros acc; cbn [foldl List.filter].
  - rewrite elem_of_nil. tauto.
  - rewrite IH. destruct (truthy y).
    + rewrite elem_of_union, elem_of_singleton, elem_of_cons. tauto.
    + tauto.
Qed.

Lemma labels_elem (r : Row) (l : string) :
  l ∈ labels r ↔
  (l = get_or_empty r "Type" ∧ l ≠ "")
  ∨ (l = get_or_empty r "Priority" ∧ l ≠ "")
  ∨ l ∈ List.filter truthy
          (map strip (split_on is_comma (get_or_empty r "Labels"))).
Proof.
  unfold labels. rewrite filter_map_strip.
  assert (truthy_opt (r !! "Labels") = false →
          List.filter truthy
            (map strip (split_on is_comma (get_or_empty r "Labels"))) = [])
    as Hnone.
  { rewrite truthy_opt_get. unfold truthy at 1.
    destruct (String.eqb _ "") eqn:E; [|done].
    apply String.eqb_eq in E as ->. reflexivity. }
  pose proof (truthy_spec (get_or_empty r "Type")) as Ht.
  pose proof (truthy_spec (get_or_empty r "Priority")) as Hp.
  destruct (truthy_opt (r !! "Labels")) eqn:El;
    [|rewrite (Hnone eq_refl)];
    destruct (truthy (get_or_empty r "Type")),
             (truthy (get_or_empty r "Priority"));
    cbn [app]; rewrite ?elem_of_app, ?elem_of_cons, ?elem_of_nil;
    intuition (subst; try done; auto).
Qed.

Lemma all_labels_step (acc : gset string) (r : Row) (l : string) :
  l ∈ (let all_labels :=
         if truthy_opt (r !! "Labels")
         then foldl (λ (all_labels : gset string) lab,
                       if truthy lab then all_labels ∪ {[lab]}
                       else all_labels)
                acc (map strip (split_on is_comma (get_or_empty r "Labels")))
         else acc in
       let all_labels :=
         if truthy_opt (r !! "Type")
         then all_labels ∪ {[get_or_empty r "Type"]} else all_labels in
       if truthy_opt (r !! "Priority")
       then all_labels ∪ {[get_or_empty r "Priority"]} else all_labels)
  ↔ l ∈ acc ∨ l ∈ labels r.
Proof.
  rewrite labels_elem, !truthy_opt_get. cbn zeta.
  assert (truthy (get_or_empty r "Labels") = false →
          List.filter truthy
            (map strip (split_on is_comma (get_or_empty r "Labels"))) = [])
    as Hnone.
  { unfold truthy at 1. destruct (String.eqb _ "") eqn:E; [|done].
    apply String.eqb_eq in E as ->. reflexivity. }
  pose proof (truthy_spec (get_or_empty r "Type")) as Ht.
  pose proof (truthy_spec (get_or_empty r "Priority")) as Hp.
  destruct (truthy (get_or_empty r "Labels")) eqn:El;
    [|rewrite (Hnone eq_refl)];
    destruct (truthy (get_or_empty r "Type")),
             (truthy (get_or_empty r "Priority"));
    rewrite ?elem_of_union, ?elem_of_singleton, ?foldl_add_labels,
      ?elem_of_nil;
    intuition (subst; try done; auto).
Qed.

Lemma all_labels_from (rows : list Row) (acc : gset string) (l : string) :
  l ∈ foldl (λ (all_labels : gset string) (r : Row),
      let all_labels :=
        if truthy_opt (r !! "Labels")
        then foldl (λ (all_labels : gset string) lab,
                      if truthy lab then all_labels ∪ {[lab]} else all_labels)
               all_labels
               (map strip (split_on is_comma (get_or_empty r "Labels")))
        else all_labels in
      let all_labels :=
        if truthy_opt (r !! "Type")
        then all_labels ∪ {[get_or_empty r "Type"]} else all_labels in
      if truthy_opt (r !! "Priority")
      then all_labels ∪ {[get_or_empty r "Priority"]} else all_labels)
    acc rows
  ↔ l ∈ acc ∨ ∃ r : Row, r ∈ rows ∧ l ∈ labels r.
Proof.
  revert acc. induction rows as [|r rows IH]; intros acc; cbn [foldl].
  - split; [by left|]. intros [H|(r & Hr & _)]; [done|].
    by apply elem_of_nil in Hr.
  - rewrite IH. rewrite (all_labels_step acc r l). split.
    + intros [[H|H]|(r' & Hr' & H)]; [by left| |].
      * right. exists r. split; [left|done].
      * right. exists r'. split; [by right|done].
    + intros [H|(r' & Hr' & H)]; [by left; left|].
      apply elem_of_cons in Hr' as [->|Hr'].
      * left. by right.
      * right. by exists r'.
Qed.

(** X6.  The labels [main] makes sure of are exactly the labels it attaches
    to the issues: a name is in [all_labels] if and only if it is among the
    labels of some row; and no label of a row is empty. *)
Theorem all_labels_are_row_labels (rows : list Row) (l : string) :
  (l ∈ all_labels rows ↔ ∃ r : Row, r ∈ rows ∧ l ∈ labels r)
  ∧ (∀ r : Row, l ∈ labels r → l ≠ "").
Proof.
  split.
  - unfold all_labels. rewrite all_labels_from. split.
    + intros [H|H]; [|done]. by apply not_elem_of_empty in H.
    + intros H. by right.
  - intros r. rewrite labels_elem. intros [[_ H]|[[_ H]|H]]; [done..|].
    apply list_elem_of_In, filter_In in H as [_ H]. by apply truthy_spec.
Qed.

Lemma all_labels_are_row_labels_witness :
  "bug" ∈ all_labels [row_bug] ∧ "P1" ∈ all_labels [row_bug].
Proof.
  split.
  - apply (proj1 (all_labels_are_row_labels [row_bug] "bug")).
    exists row_bug. split; [left|]. vm_compute. left.
  - apply (proj1 (all_labels_are_row_labels [row_bug] "P1")).
    exists row_bug. split; [left|]. vm_compute. right. left.
Defined.

(** ** Requests that go through *)

Lemma fault_free_head (w : World) :
  fault_free w → head (faults w) = None ∨ head (faults w) = Some NoFault.
Proof.
  unfold fault_free. destruct (faults w) as [|f fs]; [by left|].
  intros H. apply Forall_cons in H as [-> _]. by right.
Qed.

Lemma fault_free_exchanged (w : World) (rm : Remote) (x : Exchange) :
  fault_free w → fault_free (exchanged w rm x).
Proof.
  unfold fault_free. cbn [faults exchanged].
  destruct (faults w) as [|f fs]; [done|]. intros H.
  by apply Forall_cons in H as [_ H].
Qed.

Lemma requests_send_serve {A} (h : Headers) (req : Request A) (w : World) :
  head (faults w) = None ∨ head (faults w) = Some NoFault →
  requests_send h req w
  = (Ok (serve req (remote w)).1,
     exchanged w (serve req (remote w)).2
       {| x_headers := h; x_request := Sent req;
          x_error := error_of (serve req (remote w)).1 |}).
Proof.
  intros H. unfold requests_send.
  destruct H as [-> | ->]; by destruct (serve req (remote w)).
Qed.

(** ** Listing the labels *)

Lemma list_labels_from_complete (fuel : nat) (owner repo token : string)
    (acc : gmap string string) (page : Z) (w : World) :
  fault_free w → 1 ≤ page →
  (length (skipn (100 * Z.to_nat (page - 1)) (remote_labels (remote w)))
   < fuel)%nat →
  ∃ w1,
    list_labels_from fuel owner repo token acc page w
    = (Ok (label_colors acc
             (skipn (100 * Z.to_nat (page - 1)) (remote_labels (remote w)))),
       w1)
    ∧ remote w1 = remote w ∧ fault_free w1
    ∧ stdout w1 = stdout w ∧ stderr w1 = stderr w.
Proof.
  revert acc page w.
  induction fuel as [|fuel IH]; intros acc page w Hfree Hp Hlen; [lia|].
  cbn [list_labels_from].
  rewrite (bind_Ok _ _ _ _ _
             (requests_send_serve _ _ w (fault_free_head w Hfree))).
  cbn [serve fst snd error_of].
  erewrite bind_Ok by reflexivity. erewrite bind_Ok by reflexivity.
  unfold page_of. rewrite (proj2 (Z.ltb_ge page 1)) by lia.
  set (rest := skipn (100 * Z.to_nat (page - 1)) (remote_labels (remote w)))
    in *.
  destruct (firstn 100 rest) as [|l data] eqn:Edata.
  - apply take_nil_inv in Edata as [Hz | ->]; [lia|].
    eexists. split; [reflexivity|]. repeat split.
    by apply fault_free_exchanged.
  - edestruct (IH (label_colors acc (l :: data)) (page + 1)) as
      (w1 & -> & Hrm & Hfree1 & Hout & Herr);
      [by apply fault_free_exchanged|lia| |].
    + cbn [remote exchanged].
      replace (Z.to_nat (page + 1 - 1)) with (S (Z.to_nat (page - 1))) by lia.
      replace (100 * S (Z.to_nat (page - 1)))%nat
        with (100 * Z.to_nat (page - 1) + 100)%nat by lia.
      rewrite <- drop_drop. fold rest.
      assert (length rest ≠ 0)%nat.
      { intros Hz. apply nil_length_inv in Hz. rewrite Hz in Edata.
        discriminate. }
      rewrite length_drop. lia.
    + exists w1. split; [|done]. f_equal. f_equal.
      cbn [remote exchanged].
      replace (Z.to_nat (page + 1 - 1)) with (S (Z.to_nat (page - 1))) by lia.
      replace (100 * S (Z.to_nat (page - 1)))%nat
        with (100 * Z.to_nat (page - 1) + 100)%nat by lia.
      rewrite <- drop_drop. fold rest. unfold label_colors.
      rewrite <- foldl_app, <- Edata. by rewrite take_drop.
Qed.

Lemma label_colors_keys (l : list Label) (acc : gmap string string)
    (k : string) :
  is_Some (label_colors acc l !! k)
  ↔ is_Some (acc !! k) ∨ k ∈ map lb_name l.
Proof.
  unfold label_colors. revert acc.
  induction l as [|l0 l IH]; intros acc; cbn [foldl map].
  - rewrite elem_of_nil. tauto.
  - rewrite IH, lookup_insert_is_Some, elem_of_cons.
    destruct (decide (lb_name l0 = k)) as [->|Hne];
      intuition (auto || congruence).
Qed.

Lemma label_colors_other (l : list Label) (acc : gmap string string)
    (k : string) :
  k ∉ map lb_name l → label_colors acc l !! k = acc !! k.
Proof.
  unfold label_colors. revert acc.
  induction l as [|l0 l IH]; intros acc Hk; [reflexivity|].
  cbn [map] in Hk. apply not_elem_of_cons in Hk as [Hne Hk].
  cbn [foldl]. rewrite IH by done. by rewrite lookup_insert_ne.
Qed.

Lemma label_colors_lookup (l : list Label) (acc : gmap string string)
    (x : Label) :
  NoDup (map lb_name l) → x ∈ l →
  label_colors acc l !! lb_name x = Some (lb_color x).
Proof.
  revert acc. induction l as [|l0 l IH]; intros acc Hnd Hin.
  - by apply elem_of_nil in Hin.
  - cbn [map] in Hnd. apply NoDup_cons in Hnd as [Hl0 Hnd].
    change (label_colors (<[lb_name l0 := lb_color l0]> acc) l !! lb_name x
            = Some (lb_color x)).
    apply elem_of_cons in Hin as [->|Hin]; [|by apply IH].
    rewrite label_colors_other by done. by rewrite lookup_insert_eq.
Qed.

(** X7.  When no request fails, [list_labels] goes through all the pages of
    the listing: the dictionary it returns has a key for every label of the
    repository, however many there are, and for nothing else; with distinct
    label names each key holds the colour of its label.  The repository is
    left as it is. *)
Theorem list_labels_complete (fuel : nat) (owner repo token : string)
    (w : World) :
  fault_free w →
  (length (remote_labels (remote w)) < fuel)%nat →
  ∃ existing w1,
    list_labels fuel owner repo token w = (Ok existing, w1)
    ∧ remote w1 = remote w
    ∧ (∀ name, is_Some (existing !! name)
               ↔ name ∈ map lb_name (remote_labels (remote w)))
    ∧ (NoDup (map lb_name (remote_labels (remote w))) →
       ∀ l, l ∈ remote_labels (remote w) →
            existing !! lb_name l = Some (lb_color l)).
Proof.
  intros Hfree Hlen.
  destruct (list_labels_from_complete fuel owner repo token ∅ 1 w Hfree)
    as (w1 & Hrun & Hrm & _); [done|exact Hlen|].
  cbn [Z.sub Z.to_nat Nat.mul skipn Z.add Z.opp Z.pos_sub] in Hrun.
  eexists _, w1. split; [exact Hrun|]. split; [exact Hrm|]. split.
  - intros name. rewrite label_colors_keys, lookup_empty.
    split; [intros [[? ?]|?]; done|by right].
  - intros Hnd l Hl. by apply label_colors_lookup.
Qed.

Lemma list_labels_complete_witness :
  ∃ existing w1,
    list_labels 251 "acme" "app" "secret" labelled_world = (Ok existing, w1)
    ∧ is_Some (existing !! "label-249").
Proof.
  edestruct (list_labels_complete 251 "acme" "app" "secret" labelled_world)
    as (existing & w1 & Hrun & _ & Hkeys & _);
    [constructor|vm_compute; lia|].
  exists existing, w1. split; [exact Hrun|].
  apply Hkeys. apply list_elem_of_lookup. exists 249%nat.
  vm_compute. reflexivity.
Defined.

Lemma ensure_milestone_listing_fails (owner repo name token : string)
    (w : World) (c : Z) :
  head (faults w) = Some (Status c) →
  ensure_milestone owner repo name token w
  = (Raise (HTTPError c),
     exchanged w (remote w)
       {| x_headers := gh_headers token;
          x_request := Sent (GET_milestones owner repo);
          x_error := Some (HTTPError c) |}).
Proof.
  intros Hfault.
  unfold ensure_milestone, mbind, M_bind, requests_send. by rewrite Hfault.
Qed.

(** X8.  A listing that fails is fatal, for the labels as for the
    milestones: when the first request is answered with an error,
    [ensure_labels] and [ensure_milestone] raise it; that request is the
    only one sent, so nothing is created, and no warning is printed.  Only
    the creation of a label is protected. *)
Theorem listing_failure_is_fatal (owner repo token : string) (w : World)
    (c : Z) :
  head (faults w) = Some (Status c) →
  (∀ fuel wanted,
     ensure_labels (S fuel) owner repo token wanted w
     = (Raise (HTTPError c),
        exchanged w (remote w)
          {| x_headers := gh_headers token;
             x_request := Sent (GET_labels owner repo 1);
             x_error := Some (HTTPError c) |}))
  ∧ (∀ name,
       ensure_milestone owner repo name token w
       = (Raise (HTTPError c),
          exchanged w (remote w)
            {| x_headers := gh_headers token;
               x_request := Sent (GET_milestones owner repo);
               x_error := Some (HTTPError c) |})).
Proof.
  intros Hfault. split.
  - intros fuel wanted.
    unfold ensure_labels, list_labels. cbn [list_labels_from].
    unfold mbind, M_bind, requests_send. by rewrite Hfault.
  - intros name. by apply ensure_milestone_listing_fails.
Qed.

Lemma listing_failure_is_fatal_witness :
  ensure_milestone "acme" "app" "Sprint 1" "secret" failing_world
  = (Raise (HTTPError 503),
     exchanged failing_world (remote failing_world)
       {| x_headers := gh_headers "secret";
          x_request := Sent (GET_milestones "acme" "app");
          x_error := Some (HTTPError 503) |}).
Proof.
  apply (listing_failure_is_fatal "acme" "app" "secret" failing_world 503).
  reflexivity.
Defined.

(** ** Making sure of the labels *)

Lemma add_labels_prefix (names : list string) (l : list Label) :
  ∃ added, add_labels l names = l ++ added
           ∧ ∀ x, x ∈ added → lb_name x ∈ names ∧ lb_color x = "ededed".
Proof.
  unfold add_labels. revert l.
  induction names as [|name names IH]; intros l; cbn [foldl].
  - exists []. split; [by rewrite app_nil_r|]. intros x Hx.
    by apply elem_of_nil in Hx.
  - destruct (existsb _ l).
    + destruct (IH l) as (added & -> & Hadded). exists added.
      split; [done|]. intros x Hx. destruct (Hadded x Hx). split; [|done].
      by right.
    + destruct (IH (l ++ [{| lb_name := name; lb_color := "ededed" |}]))
        as (added & -> & Hadded).
      exists ({| lb_name := name; lb_color := "ededed" |} :: added).
      split; [by rewrite <- app_assoc|]. intros x Hx.
      apply elem_of_cons in Hx as [->|Hx]; [split; [left|done]|].
      destruct (Hadded x Hx). split; [|done]. by right.
Qed.

Lemma add_labels_has (names : list string) (l : list Label) (name : string) :
  name ∈ names → name ∈ map lb_name (add_labels l names).
Proof.
  unfold add_labels. revert l.
  induction names as [|n names IH]; intros l Hin.
  - by apply elem_of_nil in Hin.
  - cbn [foldl]. apply elem_of_cons in Hin as [->|Hin]; [|by apply IH].
    fold (add_labels
            (if existsb (λ x, String.eqb (lb_name x) n) l then l
             else l ++ [{| lb_name := n; lb_color := "ededed" |}]) names).
    destruct (add_labels_prefix names
                (if existsb (λ x, String.eqb (lb_name x) n) l then l
                 else l ++ [{| lb_name := n; lb_color := "ededed" |}]))
      as (added & -> & _).
    rewrite map_app. apply elem_of_app. left.
    destruct (existsb _ l) eqn:E.
    + apply existsb_exists in E as (x & Hx & Heq).
      apply String.eqb_eq in Heq as <-.
      apply list_elem_of_fmap. exists x. split; [done|].
      by apply list_elem_of_In.
    + rewrite map_app. apply elem_of_app. right. left.
Qed.

Lemma ensure_labels_turn_served (owner repo token name : string) (w : World) :
  fault_free w →
  ∃ w1,
    try_except
      (r ← requests_send (gh_headers token)
             (POST_labels owner repo name "ededed");
       raise_for_status r)
      (λ e, print_stderr (LabelWarning name e)) w
    = (Ok tt, w1)
    ∧ fault_free w1
    ∧ remote_labels (remote w1) = add_labels (remote_labels (remote w)) [name]
    ∧ milestones (remote w1) = milestones (remote w)
    ∧ issues (remote w1) = issues (remote w).
Proof.
  intros Hfree. unfold try_except.
  rewrite (bind_Ok _ _ _ _ _
             (requests_send_serve _ _ w (fault_free_head w Hfree))).
  cbn [serve add_labels foldl].
  destruct (existsb _ (remote_labels (remote w))); cbn.
  - eexists. split; [reflexivity|]. repeat split.
    apply (fault_free_exchanged w (remote w)), Hfree.
  - eexists. split; [reflexivity|]. repeat split.
    apply (fault_free_exchanged w), Hfree.
Qed.

Lemma ensure_labels_loop_served (owner repo token : string)
    (names : list string) (w : World) :
  fault_free w →
  ∃ w1,
    for_each names (λ name,
      try_except
        (r ← requests_send (gh_headers token)
               (POST_labels owner repo name "ededed");
         raise_for_status r)
        (λ e, print_stderr (LabelWarning name e))) w
    = (Ok tt, w1)
    ∧ fault_free w1
    ∧ remote_labels (remote w1) = add_labels (remote_labels (remote w)) names
    ∧ milestones (remote w1) = milestones (remote w)
    ∧ issues (remote w1) = issues (remote w).
Proof.
  revert w. induction names as [|name names IH]; intros w Hfree.
  - exists w. by cbn.
  - destruct (ensure_labels_turn_served owner repo token name w Hfree)
      as (w0 & Hturn & Hfree0 & Hl0 & Hm0 & Hi0).
    destruct (IH w0 Hfree0) as (w1 & Hloop & Hfree1 & Hl1 & Hm1 & Hi1).
    exists w1. cbn [for_each]. rewrite (bind_Ok _ _ _ _ _ Hturn).
    split; [exact Hloop|]. split; [exact Hfree1|].
    split; [by rewrite Hl1, Hl0|]. split; congruence.
Qed.

Lemma to_create_elem (wanted : list string) (existing : gmap string string)
    (name : string) :
  name ∈ to_create wanted existing
  ↔ name ∈ wanted ∧ name ≠ "" ∧ existing !! name = None.
Proof.
  unfold to_create. rewrite list_elem_of_In, filter_In, <- list_elem_of_In.
  rewrite andb_true_iff, truthy_spec, bool_decide_eq_true. tauto.
Qed.

(** X9.  When no request fails, [ensure_labels] ends normally and leaves the
    repository with a label for every wanted name that is not empty; the
    labels that were there are kept, in place, the new ones come after them
    with the colour ededed, and milestones and issues are not touched. *)
Theorem ensure_labels_postcondition (fuel : nat) (owner repo token : string)
    (wanted : list string) (w : World) :
  fault_free w →
  (length (remote_labels (remote w)) < fuel)%nat →
  ∃ w2,
    ensure_labels fuel owner repo token wanted w = (Ok tt, w2)
    ∧ (∀ name, name ∈ wanted → name ≠ "" →
               name ∈ map lb_name (remote_labels (remote w2)))
    ∧ (∃ added,
         remote_labels (remote w2) = remote_labels (remote w) ++ added
         ∧ ∀ x, x ∈ added → lb_name x ∈ wanted ∧ lb_color x = "ededed")
    ∧ milestones (remote w2) = milestones (remote w)
    ∧ issues (remote w2) = issues (remote w).
Proof.
  intros Hfree Hlen.
  destruct (list_labels_from_complete fuel owner repo token ∅ 1 w Hfree)
    as (w1 & Hlist & Hrm & Hfree1 & _); [done|exact Hlen|].
  change (skipn (100 * Z.to_nat (1 - 1)) (remote_labels (remote w)))
    with (remote_labels (remote w)) in Hlist.
  set (existing := label_colors ∅ (remote_labels (remote w))) in *.
  destruct (ensure_labels_loop_served owner repo token
              (to_create wanted existing) w1 Hfree1)
    as (w2 & Hloop & _ & Hl & Hm & Hi).
  exists w2. unfold ensure_labels, list_labels.
  rewrite (bind_Ok _ _ _ _ _ Hlist). split; [exact Hloop|].
  rewrite Hl, Hm, Hi, Hrm.
  destruct (add_labels_prefix (to_create wanted existing)
              (remote_labels (remote w))) as (added & Hadd & Hadded).
  split; [|split; [|done]].
  - intros name Hin Hne. destruct (existing !! name) as [c|] eqn:E.
    + rewrite Hadd, map_app. apply elem_of_app. left.
      assert (is_Some (existing !! name)) as Hsome by eauto.
      apply label_colors_keys in Hsome as [[? Hempty]|Hin']; [|done].
      by rewrite lookup_empty in Hempty.
    + apply add_labels_has. by apply to_create_elem.
  - exists added. split; [exact Hadd|]. intros x Hx.
    destruct (Hadded x Hx) as [Hname Hcolor]. split; [|done].
    by apply to_create_elem in Hname as [? _].
Qed.

Lemma ensure_labels_postcondition_witness :
  ∃ w2,
    ensure_labels 1 "acme" "app" "secret" ["bug"; ""; "P1"] sample_world
    = (Ok tt, w2)
    ∧ "P1" ∈ map lb_name (remote_labels (remote w2)).
Proof.
  edestruct (ensure_labels_postcondition 1 "acme" "app" "secret"
               ["bug"; ""; "P1"] sample_world)
    as (w2 & Hrun & Hhas & _); [constructor|cbn; lia|].
  exists w2. split; [exact Hrun|].
  apply Hhas; [right; right; left|discriminate].
Defined.

(** ** Making sure of the milestone *)

Lemma find_title_none (name : string) (ms : list Milestone) :
  (∀ m, m ∈ ms → ms_title m ≠ name) →
  List.find (λ m, String.eqb (ms_title m) name) ms = None.
Proof.
  induction ms as [|m ms IH]; intros H; [reflexivity|]. cbn [List.find].
  rewrite (proj2 (String.eqb_neq (ms_title m) name)) by (apply H; left).
  apply IH. intros m' Hm'. apply H. by right.
Qed.

Lemma find_title_last (name : string) (ms : list Milestone) (m : Milestone) :
  (∀ m, m ∈ ms → ms_title m ≠ name) → ms_title m = name →
  List.find (λ m, String.eqb (ms_title m) name) (ms ++ [m]) = Some m.
Proof.
  intros H Hm. induction ms as [|m0 ms IH]; cbn [app List.find].
  - by rewrite (proj2 (String.eqb_eq (ms_title m) name)).
  - rewrite (proj2 (String.eqb_neq (ms_title m0) name)) by (apply H; left).
    apply IH. intros m' Hm'. apply H. by right.
Qed.

(** X11.  When the repository has fewer than a hundred milestones, none with
    the wanted title, and no request fails, [ensure_milestone] creates an
    open milestone with that title and returns its number; called again, it
    returns the same number and creates nothing. *)
Theorem ensure_milestone_creates_once (owner repo name token : string)
    (w : World) :
  fault_free w →
  (length (milestones (remote w)) < 100)%nat →
  (∀ m, m ∈ milestones (remote w) → ms_title m ≠ name) →
  ∃ w1 w2,
    ensure_milestone owner repo name token w
    = (Ok (next_milestone (remote w)), w1)
    ∧ milestones (remote w1)
      = milestones (remote w)
        ++ [{| ms_number := next_milestone (remote w); ms_title := name;
               ms_state := "open" |}]
    ∧ ensure_milestone owner repo name token w1
      = (Ok (next_milestone (remote w)), w2)
    ∧ remote w2 = remote w1.
Proof.
  intros Hfree Hlen Hnone.
  set (m := {| ms_number := next_milestone (remote w); ms_title := name;
               ms_state := "open" |}).
  set (x1 := {| x_headers := gh_headers token;
                x_request := Sent (GET_milestones owner repo);
                x_error := None |}).
  set (x2 := {| x_headers := gh_headers token;
                x_request := Sent (POST_milestones owner repo name "open");
                x_error := None |}).
  set (rm1 := {| milestones := milestones (remote w) ++ [m];
                 next_milestone := next_milestone (remote w) + 1;
                 remote_labels := remote_labels (remote w);
                 issues := issues (remote w);
                 next_issue := next_issue (remote w) |}).
  set (w1 := exchanged (exchanged w (remote w) x1) rm1 x2).
  assert (fault_free w1) as Hfree1.
  { by do 2 apply fault_free_exchanged. }
  assert (ensure_milestone owner repo name token w = (Ok (ms_number m), w1))
    as Hfirst.
  { unfold ensure_milestone.
    rewrite (bind_Ok _ _ _ _ _
               (requests_send_serve _ _ w (fault_free_head w Hfree))).
    cbn [serve fst snd error_of].
    erewrite bind_Ok by reflexivity. erewrite bind_Ok by reflexivity.
    change (page_of 100 1 (milestones (remote w)))
      with (firstn 100 (milestones (remote w))).
    rewrite firstn_all2 by lia. rewrite find_title_none by done.
    rewrite (bind_Ok _ _ _ _ _
               (requests_send_serve _ _ _
                  (fault_free_head _
                     (fault_free_exchanged w (remote w) x1 Hfree)))).
    reflexivity. }
  exists w1, (exchanged w1 (remote w1) x1).
  split; [exact Hfirst|]. split; [reflexivity|]. split; [|reflexivity].
  apply (ensure_milestone_first_page owner repo name token w1 m).
  - by apply fault_free_head.
  - cbn [remote exchanged w1 milestones rm1].
    rewrite firstn_all2 by (rewrite length_app; cbn; lia).
    by apply find_title_last.
Qed.

Lemma ensure_milestone_creates_once_witness :
  ∃ w1 w2,
    ensure_milestone "acme" "app" "Sprint 2" "secret" sprint_world
    = (Ok 102, w1)
    ∧ ensure_milestone "acme" "app" "Sprint 2" "secret" w1 = (Ok 102, w2)
    ∧ length (milestones (remote w2)) = 2%nat.
Proof.
  edestruct (ensure_milestone_creates_once "acme" "app" "Sprint 2" "secret"
               sprint_world) as (w1 & w2 & H1 & Hms & H2 & Hrm);
    [constructor|cbn; lia| |].
  - intros m Hm. apply list_elem_of_singleton in Hm as ->. discriminate.
  - exists w1, w2. split; [exact H1|]. split; [exact H2|].
    by rewrite Hrm, Hms.
Defined.

(** ** Creating the issues *)

Lemma calm_head (n : nat) (w : World) :
  calm (S n) w → head (faults w) = None ∨ head (faults w) = Some NoFault.
Proof.
  unfold calm. destruct (faults w) as [|f fs]; [by left|].
  cbn [firstn]. intros H. apply Forall_cons in H as [-> _]. by right.
Qed.

Lemma calm_tail (n : nat) (w w1 : World) :
  faults w1 = tail (faults w) → calm (S n) w → calm n w1.
Proof.
  unfold calm. intros ->. destruct (faults w) as [|f fs].
  - by destruct n.
  - cbn [firstn tail]. intros H. by apply Forall_cons in H as [_ H].
Qed.

(** A turn of the first loop whose request goes through, outside dry runs. *)
Lemma create_row_served (args : Args) (owner repo token : string)
    (milestone_number : option Z) (st : Maps) (r : Row) (w : World) :
  dry_run args = false →
  head (faults w) = None ∨ head (faults w) = Some NoFault →
  ∃ st1 w1,
    create_row args owner repo token milestone_number st r w = (Ok st1, w1)
    ∧ issues (remote w1)
      = issues (remote w)
        ++ [issue_of args milestone_number (next_issue (remote w)) r]
    ∧ next_issue (remote w1) = next_issue (remote w) + 1
    ∧ milestones (remote w1) = milestones (remote w)
    ∧ remote_labels (remote w1) = remote_labels (remote w)
    ∧ stdout w1
      = stdout w ++ [Created (next_issue (remote w)) (api_title r)]
    ∧ faults w1 = tail (faults w)
    ∧ length (transcript w1) = S (length (transcript w)).
Proof.
  intros Hdry Hhead. unfold create_row, create_issue. rewrite Hdry.
  unfold mbind at 1, M_bind at 1.
  rewrite (bind_Ok _ _ _ _ _ (requests_send_serve _ _ w Hhead)).
  cbn [serve fst snd error_of].
  erewrite bind_Ok by reflexivity. cbn [json mret M_ret].
  eexists _, _. split; [reflexivity|]. cbn.
  repeat split.
  - f_equal. f_equal. unfold issue_of. f_equal.
    + by destruct (labels r).
    + by destruct (truthy (assignee args)).
  - rewrite length_app. cbn. lia.
Qed.

Lemma for_fold_create_served (args : Args) (owner repo token : string)
    (milestone_number : option Z) (rows : list Row) (st : Maps) (w : World) :
  dry_run args = false →
  calm (length rows) w →
  ∃ st1 w1,
    for_fold rows (create_row args owner repo token milestone_number) st w
    = (Ok st1, w1)
    ∧ issues (remote w1)
      = issues (remote w)
        ++ issues_of args milestone_number (next_issue (remote w)) rows
    ∧ next_issue (remote w1) = next_issue (remote w) + Z.of_nat (length rows)
    ∧ milestones (remote w1) = milestones (remote w)
    ∧ remote_labels (remote w1) = remote_labels (remote w)
    ∧ stdout w1
      = stdout w
        ++ map (λ i, Created (is_number i) (is_title i))
             (issues_of args milestone_number (next_issue (remote w)) rows)
    ∧ faults w1 = skipn (length rows) (faults w)
    ∧ length (transcript w1) = (length (transcript w) + length rows)%nat.
Proof.
  intros Hdry. revert st w.
  induction rows as [|r rows IH]; intros st w Hcalm.
  - exists st, w. cbn. rewrite !app_nil_r. repeat split; lia.
  - cbn [length] in Hcalm.
    destruct (create_row_served args owner repo token milestone_number st r w
                Hdry (calm_head _ _ Hcalm))
      as (st0 & w0 & Hr & Hi0 & Hn0 & Hm0 & Hl0 & Ho0 & Hf0 & Ht0).
    destruct (IH st0 w0 (calm_tail _ _ _ Hf0 Hcalm))
      as (st1 & w1 & Hrows & Hi1 & Hn1 & Hm1 & Hl1 & Ho1 & Hf1 & Ht1).
    exists st1, w1. cbn [for_fold]. rewrite (bind_Ok _ _ _ _ _ Hr).
    split; [exact Hrows|]. cbn [issues_of map length].
    rewrite Hi1, Hn1, Hm1, Hl1, Ho1, Hf1, Ht1, Hi0, Hn0, Hm0, Hl0, Ho0, Hf0,
      Ht0, <- !app_assoc.
    repeat split; try lia.
    destruct (faults w); cbn [tail]; [by rewrite !drop_nil|done].
Qed.

(** X12.  Outside dry runs, when the requests go through, the creation
    pass creates exactly one issue for each row, in file order: the issues
    of the repository are those that were there followed by the issues of
    the rows, numbered as the service numbers them, each with the title, the
    body, the labels, the milestone and the assignee of its row; one line
    is printed for each, and as many requests are sent as there are rows. *)
Theorem first_pass_creates_in_order (args : Args) (owner repo token : string)
    (milestone_number : option Z) (rows : list Row) (w : World) :
  dry_run args = false →
  calm (length rows) w →
  ∃ st w1,
    first_pass args owner repo token milestone_number rows w = (Ok st, w1)
    ∧ issues (remote w1)
      = issues (remote w)
        ++ issues_of args milestone_number (next_issue (remote w)) rows
    ∧ stdout w1
      = stdout w
        ++ map (λ i, Created (is_number i) (is_title i))
             (issues_of args milestone_number (next_issue (remote w)) rows)
    ∧ length (transcript w1) = (length (transcript w) + length rows)%nat.
Proof.
  intros Hdry Hcalm.
  destruct (for_fold_create_served args owner repo token milestone_number
              rows no_maps w Hdry Hcalm)
    as (st & w1 & H & Hi & _ & _ & _ & Ho & _ & Ht).
  by exists st, w1.
Qed.

Lemma first_pass_creates_in_order_witness :
  ∃ st w1,
    first_pass real_args "acme" "app" "secret" (Some 1) sample_rows
      sample_world = (Ok st, w1)
    ∧ map is_title (issues (remote w1)) = ["Epic"; "Child a"; "Child b"].
Proof.
  edestruct (first_pass_creates_in_order real_args "acme" "app" "secret"
               (Some 1) sample_rows sample_world)
    as (st & w1 & Hrun & Hissues & _); [reflexivity|constructor|].
  exists st, w1. split; [exact Hrun|]. rewrite Hissues. reflexivity.
Defined.

(** X13.  A creation that fails ends the run there: when the requests for
    the rows [before] go through and the next one is answered with an
    error, the creation pass raises that error; the issues of the rows
    [before] have been created and stay, and no request is sent for the rows
    that follow. *)
Theorem first_pass_stops_at_failure (args : Args) (owner repo token : string)
    (milestone_number : option Z) (before : list Row) (r : Row)
    (after : list Row) (w : World) (c : Z) :
  dry_run args = false →
  calm (length before) w →
  faults w !! length before = Some (Status c) →
  ∃ w1,
    first_pass args owner repo token milestone_number
      (before ++ r :: after) w = (Raise (HTTPError c), w1)
    ∧ issues (remote w1)
      = issues (remote w)
        ++ issues_of args milestone_number (next_issue (remote w)) before
    ∧ length (transcript w1) = S (length (transcript w) + length before).
Proof.
  intros Hdry Hcalm Hfault.
  destruct (for_fold_create_served args owner repo token milestone_number
              before no_maps w Hdry Hcalm)
    as (st0 & w0 & H0 & Hi0 & _ & _ & _ & _ & Hf0 & Ht0).
  unfold first_pass. rewrite for_fold_app, (bind_Ok _ _ _ _ _ H0).
  cbn [for_fold]. unfold create_row, create_issue. rewrite Hdry.
  assert (head (faults w0) = Some (Status c)) as Hhead.
  { rewrite Hf0. rewrite <- Hfault.
    rewrite <- (Nat.add_0_r (length before)) at 2.
    rewrite <- lookup_drop. by destruct (skipn _ _). }
  unfold mbind, M_bind, requests_send. rewrite Hhead. cbn.
  eexists. split; [reflexivity|]. cbn. split; [exact Hi0|].
  rewrite length_app. cbn. lia.
Qed.

Lemma first_pass_stops_at_failure_witness :
  ∃ w1,
    first_pass real_args "acme" "app" "secret" None sample_rows
      third_fails_world = (Raise (HTTPError 502), w1)
    ∧ map is_title (issues (remote w1)) = ["Epic"; "Child a"].
Proof.
  edestruct (first_pass_stops_at_failure real_args "acme" "app" "secret" None
               [row_P1; row_P2] row_P3 [] third_fails_world 502)
    as (w1 & Hrun & Hissues & _);
    [reflexivity|repeat constructor|reflexivity|].
  exists w1. split; [exact Hrun|]. rewrite Hissues. reflexivity.
Defined.

(** ** The Local-to-Remote Map is complete *)

(** X14.  When the creation pass is over, the keys of the Local-to-Remote Map
    are exactly the local identifiers of the rows: every row has an entry,
    whether or not an earlier row has the same identifier, and nothing else
    has one.  Outside dry runs every entry is an issue number. *)
Theorem id_to_issue_domain (args : Args) (owner repo token : string)
    (milestone_number : option Z) (rows : list Row) (st : Maps)
    (w w1 : World) :
  first_pass args owner repo token milestone_number rows w = (Ok st, w1) →
  (∀ k, is_Some (id_to_issue st !! k) ↔ ∃ r : Row, r ∈ rows ∧ r !! "ID" = k)
  ∧ (dry_run args = false →
     ∀ k v, id_to_issue st !! k = Some v → ∃ n, v = Number n).
Proof.
  intros H. split; [intros k; split|].
  - apply first_pass_ids in H as [_ Hkeys]. apply Hkeys.
  - intros (r & Hr & <-). revert r Hr.
    refine (for_fold_invariant _
              (λ seen s, ∀ r : Row, r ∈ seen →
                           is_Some (id_to_issue s !! (r !! "ID")))
              rows _ [] no_maps w st w1 _ H).
    + intros seen r0 s w0 s1 w2 _ Hs Hc r Hr.
      apply create_row_Ok in Hc as (_ & _ & v & -> & _).
      apply lookup_insert_is_Some'. apply elem_of_app in Hr as [Hr|Hr].
      * right. by apply Hs.
      * apply list_elem_of_singleton in Hr as ->. by left.
    + intros r Hr. by apply elem_of_nil in Hr.
  - intros Hdry.
    refine (for_fold_invariant _
              (λ _ s, ∀ k v, id_to_issue s !! k = Some v → ∃ n, v = Number n)
              rows _ [] no_maps w st w1 _ H).
    + intros _ r0 s w0 s1 w2 _ Hs Hc k v Hk.
      apply create_row_Ok in Hc as (_ & _ & v0 & Hmap & _ & Hreal).
      destruct (Hreal Hdry) as (issue & w3 & _ & ->). rewrite Hmap in Hk.
      apply lookup_insert_Some in Hk as [[_ <-]|[_ Hk]]; [eauto|].
      by apply (Hs k).
    + intros k v Hk. cbn [id_to_issue no_maps] in Hk.
      by rewrite lookup_empty in Hk.
Qed.

Lemma id_to_issue_domain_witness :
  ∃ st w1,
    first_pass real_args "acme" "app" "secret" None twin_rows sample_world
    = (Ok st, w1)
    ∧ is_Some (id_to_issue st !! Some "A")
    ∧ id_to_issue st !! Some "B" = None.
Proof.
  eexists _, _. split; [vm_compute; reflexivity|].
  edestruct (id_to_issue_domain real_args "acme" "app" "secret" None
               twin_rows) with (w := sample_world) as [Hdom _];
    [vm_compute; reflexivity|].
  split.
  - apply Hdom. eexists. split; [left|]. reflexivity.
  - apply eq_None_not_Some. intros Hsome. apply Hdom in Hsome.
    destruct Hsome as (r & Hr & Hid).
    repeat (apply elem_of_cons in Hr as [->|Hr]); [discriminate..|].
    by apply elem_of_nil in Hr.
Defined.

(** ** Linking a row *)

Lemma dependencies_block_total (m : gmap (option string) IssueRef)
    (ds : list string) : ∃ s, dependencies_block m ds = Ok s.
Proof. rewrite dependencies_block_spec. eauto. Qed.

Lemma parent_line_total (m : gmap (option string) IssueRef) (p : string) :
  ∃ s, parent_line m p = Ok s.
Proof.
  unfold parent_line, getitem. destruct (truthy p); cbn [andb]; [|eauto].
  destruct (m !! Some p) as [v|] eqn:E.
  - rewrite bool_decide_true by eauto. cbn. eauto.
  - rewrite bool_decide_false by (intros [? ?]; discriminate). eauto.
Qed.

Lemma update_issue_served (owner repo token : string) (n : Z) (b : string)
    (w : World) (i : Issue) :
  head (faults w) = None ∨ head (faults w) = Some NoFault →
  find_issue (Number n) (issues (remote w)) = Some i →
  ∃ i1,
    update_issue owner repo token (Number n) b w
    = (Ok i1,
       exchanged w
         {| milestones := milestones (remote w);
            next_milestone := next_milestone (remote w);
            remote_labels := remote_labels (remote w);
            issues := set_body n b (issues (remote w));
            next_issue := next_issue (remote w) |}
         {| x_headers := gh_headers token;
            x_request := Sent (PATCH_issue owner repo (Number n) b);
            x_error := None |}).
Proof.
  intros Hhead Hfind. unfold update_issue.
  rewrite (bind_Ok _ _ _ _ _ (requests_send_serve _ _ w Hhead)).
  cbn [serve]. rewrite Hfind. cbn [fst snd error_of].
  erewrite bind_Ok by reflexivity. eexists. reflexivity.
Qed.

(** X16.  Linking a row appends and never replaces: when the row's issue
    exists and [extra] is not empty, [link_row] reads the issue, then writes
    back the body it has read, the empty string for a missing body, followed
    by [extra]; these two requests are all it sends, and nothing else of the
    repository changes.  [extra] itself is always computed without error. *)
Theorem link_row_appends (owner repo token : string) (st : Maps) (r : Row)
    (w : World) (n : Z) (i : Issue) :
  calm 2 w →
  id_to_issue st !! (r !! "ID") = Some (Number n) → n ≠ 0 →
  find_issue (Number n) (issues (remote w)) = Some i →
  ∃ e, extra (id_to_issue st) (default [] (deps_map st !! (r !! "ID")))
         (get_or_empty r "ParentID") = Ok e
    ∧ (e ≠ "" →
       ∃ w1,
         link_row owner repo token st r w = (Ok tt, w1)
         ∧ map x_request (skipn (length (transcript w)) (transcript w1))
           = [ Sent (GET_issue owner repo (Number n));
               Sent (PATCH_issue owner repo (Number n)
                       (or_else (is_body i) "" +:+ e)) ]
         ∧ issues (remote w1)
           = set_body n (or_else (is_body i) "" +:+ e) (issues (remote w))
         ∧ milestones (remote w1) = milestones (remote w)
         ∧ remote_labels (remote w1) = remote_labels (remote w)).
Proof.
  intros Hcalm Hid Hn Hfind.
  assert (∃ e, extra (id_to_issue st)
                 (default [] (deps_map st !! (r !! "ID")))
                 (get_or_empty r "ParentID") = Ok e) as [e He].
  { unfold extra.
    destruct (dependencies_block_total (id_to_issue st)
                (default [] (deps_map st !! (r !! "ID")))) as [b ->].
    destruct (parent_line_total (id_to_issue st)
                (get_or_empty r "ParentID")) as [l ->].
    cbn. eauto. }
  exists e. split; [exact He|]. intros Hne.
  unfold link_row. rewrite Hid. cbn [truthy_ref].
  rewrite (proj2 (Z.eqb_neq n 0)) by done. cbn [negb].
  rewrite He. rewrite (bind_Ok _ _ w w e) by reflexivity.
  rewrite (proj2 (truthy_spec e)) by done.
  rewrite (bind_Ok _ _ _ _ _ (requests_send_serve _ _ w (calm_head _ _ Hcalm))).
  cbn [serve]. rewrite Hfind. cbn [fst snd error_of].
  erewrite bind_Ok by reflexivity. erewrite bind_Ok by reflexivity.
  set (w0 := exchanged w (remote w) _).
  assert (calm 1 w0) as Hcalm0 by (by apply (calm_tail 1 w w0)).
  destruct (update_issue_served owner repo token n
              (or_else (is_body i) "" +:+ e) w0 i (calm_head _ _ Hcalm0) Hfind)
    as [i1 Hup].
  rewrite (bind_Ok _ _ _ _ _ Hup).
  eexists. split; [reflexivity|]. cbn [transcript exchanged remote issues
    milestones remote_labels w0].
  rewrite <- app_assoc, drop_app_length. repeat split.
Qed.

Lemma link_row_appends_witness :
  ∃ w1,
    link_row "acme" "app" "secret" linked_maps row_A linked_world = (Ok tt, w1)
    ∧ map is_body (issues (remote w1))
      = [ Some ("old body" +:+ nl +:+ nl +:+ "### Dependencies" +:+ nl +:+
                "- [ ] Blocked by #2");
          None ].
Proof.
  edestruct (link_row_appends "acme" "app" "secret" linked_maps row_A
               linked_world 1)
    as (e & He & Happ);
    [constructor|reflexivity|discriminate|reflexivity|].
  vm_compute in He. injection He as <-.
  destruct Happ as (w1 & Hrun & _ & Hissues & _); [discriminate|].
  exists w1. split; [exact Hrun|]. rewrite Hissues. vm_compute. reflexivity.
Defined.

(** ** The list of subtasks *)

Lemma subtask_lines_Raise (rows : list Row)
    (m : gmap (option string) IssueRef) (children : list (option string))
    (e : Exn) :
  foldl (λ (acc : Result (list string)) child_id,
    lines ← acc;
    let child_num := m !! child_id in
    ct ← ct rows child_id ("Issue " +:+ fmt_ref_opt child_num);
    Ok (lines ++ ["- [ ] #" +:+ fmt_ref_opt child_num +:+ " — " +:+ ct]))
  (Raise e) children = Raise e.
Proof. induction children as [|c children IH]; [reflexivity|exact IH]. Qed.

(** X17.  In a file without Title column the rows are created under the
    title [(no title)], but the list of subtasks cannot be written: the
    lookup of the title of a child reads [r["Title"]] and raises [KeyError],
    so the turn of a parent with children raises it after having read the
    parent's issue and before writing anything. *)
Theorem subtasks_need_title_column (owner repo token : string)
    (rows : list Row) (st : Maps) (w : World) (parent : string)
    (child : option string) (children : list (option string))
    (r : Row) (n : Z) (i : Issue) :
  (∀ r0 : Row, r0 ∈ rows → is_Some (r0 !! "ID") ∧ r0 !! "Title" = None) →
  r ∈ rows → r !! "ID" = child →
  head (faults w) = None ∨ head (faults w) = Some NoFault →
  id_to_issue st !! Some parent = Some (Number n) → n ≠ 0 →
  find_issue (Number n) (issues (remote w)) = Some i →
  api_title r = "(no title)"
  ∧ subtask_lines rows (id_to_issue st) (child :: children)
    = Raise (KeyError "Title")
  ∧ link_parent owner repo token rows st (parent, child :: children) w
    = (Raise (KeyError "Title"),
       exchanged w (remote w)
         {| x_headers := gh_headers token;
            x_request := Sent (GET_issue owner repo (Number n));
            x_error := None |}).
Proof.
  intros Hrows Hr Hid Hhead Hparent Hn Hfind.
  assert (subtask_lines rows (id_to_issue st) (child :: children)
          = Raise (KeyError "Title")) as Hlines.
  { unfold subtask_lines. cbn [foldl mbind Result_bind].
    destruct (ct_first_match rows child r) as (r1 & Hr1 & _ & Hct);
      [intros r0 Hr0; by apply Hrows|done..|].
    rewrite Hct. unfold getitem. rewrite (proj2 (Hrows r1 Hr1)).
    cbn [mbind Result_bind]. apply subtask_lines_Raise. }
  split; [|split; [exact Hlines|]].
  - unfold api_title. by rewrite (proj2 (Hrows r Hr)).
  - unfold link_parent. rewrite Hparent. cbn [truthy_ref].
    rewrite (proj2 (Z.eqb_neq n 0)) by done. cbn [negb].
    rewrite (bind_Ok _ _ _ _ _ (requests_send_serve _ _ w Hhead)).
    cbn [serve]. rewrite Hfind. cbn [fst snd error_of].
    erewrite bind_Ok by reflexivity. erewrite bind_Ok by reflexivity.
    rewrite Hlines. reflexivity.
Qed.

Lemma subtasks_need_title_column_witness :
  subtask_lines untitled_rows (id_to_issue linked_maps) [Some "P2"]
  = Raise (KeyError "Title").
Proof.
  eapply (subtasks_need_title_column "acme" "app" "secret" untitled_rows
            linked_maps linked_world "A" (Some "P2") [] _ 1);
    [|right; left|reflexivity|by left|reflexivity|discriminate|reflexivity].
  intros r0 Hr0.
  repeat (apply elem_of_cons in Hr0 as [->|Hr0]);
    [split; [eexists|]; reflexivity..|by apply elem_of_nil in Hr0].
Defined.

(** X18.  When every row has an ID and a Title and every child is the ID of
    a row, the list of subtasks is the heading followed by one line for each
    child, in order, with the entry of the child in the Local-to-Remote Map
    and the title of a row that has the child's identifier. *)
Theorem subtask_lines_per_child (rows : list Row)
    (m : gmap (option string) IssueRef) (children : list (option string)) :
  (∀ r : Row, r ∈ rows → is_Some (r !! "ID") ∧ is_Some (r !! "Title")) →
  (∀ c, c ∈ children → ∃ r : Row, r ∈ rows ∧ r !! "ID" = c) →
  ∃ lines,
    subtask_lines rows m children
    = Ok ((nl +:+ nl +:+ "### Subtasks") :: lines)
    ∧ Forall2 (λ c line,
        ∃ (r : Row) t, r ∈ rows ∧ r !! "ID" = c ∧ r !! "Title" = Some t
          ∧ line = "- [ ] #" +:+ fmt_ref_opt (m !! c) +:+ " — " +:+ t)
        children lines.
Proof.
  intros Hrows Hchildren. unfold subtask_lines.
  assert (∀ pre : list string, ∃ lines,
    foldl (λ (acc : Result (list string)) child_id,
      lines ← acc;
      let child_num := m !! child_id in
      ct ← ct rows child_id ("Issue " +:+ fmt_ref_opt child_num);
      Ok (lines ++ ["- [ ] #" +:+ fmt_ref_opt child_num +:+ " — " +:+ ct]))
    (Ok ((nl +:+ nl +:+ "### Subtasks") :: pre)) children
    = Ok ((nl +:+ nl +:+ "### Subtasks") :: pre ++ lines)
    ∧ Forall2 (λ c line,
        ∃ (r : Row) t, r ∈ rows ∧ r !! "ID" = c ∧ r !! "Title" = Some t
          ∧ line = "- [ ] #" +:+ fmt_ref_opt (m !! c) +:+ " — " +:+ t)
        children lines) as Hgen.
  { induction children as [|c children IH]; intros pre.
    - exists []. split; [cbn; by rewrite app_nil_r|constructor].
    - destruct (Hchildren c) as (r & Hr & Hid); [left|].
      destruct (ct_first_match rows c r) as (r1 & Hr1 & Hid1 & Hct);
        [intros r0 Hr0; by apply Hrows|done..|].
      destruct (proj2 (Hrows r1 Hr1)) as [t Ht].
      destruct (IH (λ c' Hc', Hchildren c' (list_elem_of_further _ _ _ Hc'))
                  (pre ++ ["- [ ] #" +:+ fmt_ref_opt (m !! c) +:+ " — "
                           +:+ t]))
        as (lines & Hlines & Hall).
      exists (("- [ ] #" +:+ fmt_ref_opt (m !! c) +:+ " — " +:+ t) :: lines).
      split.
      + cbn [foldl mbind Result_bind]. rewrite Hct.
        unfold getitem. rewrite Ht. cbn [mbind Result_bind app].
        refine (eq_trans Hlines _). by rewrite <- app_assoc.
      + constructor; [|exact Hall]. exists r1, t. done. }
  destruct (Hgen []) as (lines & Hl & Hall). by exists lines.
Qed.

Lemma subtask_lines_per_child_witness :
  ∃ lines,
    subtask_lines sample_rows (id_to_issue linked_maps)
      [Some "P2"; Some "P3"]
    = Ok ((nl +:+ nl +:+ "### Subtasks") :: lines)
    ∧ length lines = 2%nat.
Proof.
  edestruct (subtask_lines_per_child sample_rows (id_to_issue linked_maps)
               [Some "P2"; Some "P3"]) as (lines & Hrun & Hall).
  - intros r Hr.
    repeat (apply elem_of_cons in Hr as [->|Hr]);
      [split; eexists; reflexivity..|by apply elem_of_nil in Hr].
  - intros c Hc. repeat (apply elem_of_cons in Hc as [->|Hc]).
    + exists row_P2. split; [right; left|reflexivity].
    + exists row_P3. split; [right; right; left|reflexivity].
    + by apply elem_of_nil in Hc.
  - exists lines. split; [exact Hrun|].
    by rewrite <- (Forall2_length _ _ _ Hall).
Defined.

(** ** Every request carries the token *)

Lemma polite_still {A} (ok : Exchange → Prop) (m : M A) :
  (∀ w, (m w).2 = w) → polite ok m.
Proof.
  intros H w. rewrite H. repeat split. exists []. by rewrite app_nil_r.
Qed.

Lemma polite_ret {A} (ok : Exchange → Prop) (a : A) : polite ok (mret a).
Proof. by apply polite_still. Qed.

Lemma polite_lift {A} (ok : Exchange → Prop) (r : Result A) : polite ok (lift r).
Proof. by apply polite_still. Qed.

Lemma polite_raise {A} (ok : Exchange → Prop) (e : Exn) : polite ok (@raise A e).
Proof. by apply polite_still. Qed.

Lemma polite_out_of_fuel {A} (ok : Exchange → Prop) : polite ok (@out_of_fuel A).
Proof. by apply polite_still. Qed.

Lemma polite_os_environ_get (ok : Exchange → Prop) (k : string) :
  polite ok (os_environ_get k).
Proof. by apply polite_still. Qed.

Lemma polite_parse_csv (ok : Exchange → Prop) (path : string) :
  polite ok (parse_csv path).
Proof.
  apply polite_still. intros w. unfold parse_csv.
  by destruct (files w !! path).
Qed.

Lemma polite_print (ok : Exchange → Prop) (ln : Line) : polite ok (print ln).
Proof. intros w. repeat split. exists []. cbn. by rewrite app_nil_r. Qed.

Lemma polite_print_stderr (ok : Exchange → Prop) (ln : Line) :
  polite ok (print_stderr ln).
Proof. intros w. repeat split. exists []. cbn. by rewrite app_nil_r. Qed.

Lemma polite_send {A} (ok : Exchange → Prop) (h : Headers)
    (req : Request A) :
  (∀ e, ok {| x_headers := h; x_request := Sent req; x_error := e |}) →
  polite ok (requests_send h req).
Proof.
  intros Hok w. unfold requests_send.
  destruct (head (faults w)) as [[| |c]|];
    try destruct (serve req (remote w)) as [r rm];
    cbn; repeat split; eexists [_];
    (split; [reflexivity|by repeat constructor]).
Qed.

Lemma polite_bind {A B} (ok : Exchange → Prop) (m : M A) (k : A → M B) :
  polite ok m → (∀ a, polite ok (k a)) → polite ok (m ≫= k).
Proof.
  intros Hm Hk w. specialize (Hm w). unfold mbind, M_bind.
  destruct (m w) as [[a| |] w1]; cbn [snd] in *; [|done..].
  destruct Hm as (He & Hf & xs & Ht & Hx).
  destruct (Hk a w1) as (He1 & Hf1 & xs1 & Ht1 & Hx1).
  split; [congruence|]. split; [congruence|].
  exists (xs ++ xs1). split; [by rewrite Ht1, Ht, app_assoc|].
  by apply Forall_app.
Qed.

Lemma polite_try_except {A} (ok : Exchange → Prop) (m : M A) (handler : Exn → M A) :
  polite ok m → (∀ e, polite ok (handler e)) → polite ok (try_except m handler).
Proof.
  intros Hm Hk w. specialize (Hm w). unfold try_except.
  destruct (m w) as [[a|e|] w1]; cbn [snd] in *; [done| |done].
  destruct (is_Exception e); [|done].
  destruct Hm as (He & Hf & xs & Ht & Hx).
  destruct (Hk e w1) as (He1 & Hf1 & xs1 & Ht1 & Hx1).
  split; [congruence|]. split; [congruence|].
  exists (xs ++ xs1). split; [by rewrite Ht1, Ht, app_assoc|].
  by apply Forall_app.
Qed.

Lemma polite_for_each {A} (ok : Exchange → Prop) (l : list A) (f : A → M unit) :
  (∀ x, polite ok (f x)) → polite ok (for_each l f).
Proof.
  intros Hf. induction l as [|x l IH]; [apply polite_ret|].
  apply polite_bind; [apply Hf|]. intros _. exact IH.
Qed.

Lemma polite_for_fold {A S} (ok : Exchange → Prop) (l : list A) (f : S → A → M S)
    (s : S) :
  (∀ s x, polite ok (f s x)) → polite ok (for_fold l f s).
Proof.
  intros Hf. revert s. induction l as [|x l IH]; intros s; [apply polite_ret|].
  apply polite_bind; [apply Hf|]. apply IH.
Qed.

(** A request, the check of its status and the reading of its document. *)
Lemma polite_checked {A} (ok : Exchange → Prop) (h : Headers)
    (req : Request A) :
  (∀ e, ok {| x_headers := h; x_request := Sent req; x_error := e |}) →
  polite ok (r ← requests_send h req; raise_for_status r;; json r).
Proof.
  intros Hok. apply polite_bind; [by apply polite_send|]. intros r.
  apply polite_bind; [|intros _].
  - destruct r; [apply polite_ret|apply polite_raise].
  - destruct r; [apply polite_ret|apply polite_raise].
Qed.

Lemma polite_raise_for_status {A} (ok : Exchange → Prop) (r : Response A) :
  polite ok (raise_for_status r).
Proof. destruct r; [apply polite_ret|apply polite_raise]. Qed.

Lemma polite_json {A} (ok : Exchange → Prop) (r : Response A) : polite ok (json r).
Proof. destruct r; [apply polite_ret|apply polite_raise]. Qed.

Lemma polite_ensure_milestone (owner repo name token : string) :
  polite (sent_to owner repo token) (ensure_milestone owner repo name token).
Proof.
  unfold ensure_milestone.
  apply polite_bind; [by apply polite_send|]. intros r.
  apply polite_bind; [apply polite_raise_for_status|]. intros _.
  apply polite_bind; [apply polite_json|]. intros ms.
  destruct (List.find _ ms); [apply polite_ret|].
  apply polite_bind; [by apply polite_send|]. intros r1.
  apply polite_bind; [apply polite_raise_for_status|]. intros _.
  apply polite_bind; [apply polite_json|]. intros m. apply polite_ret.
Qed.

Lemma polite_list_labels_from (fuel : nat) (owner repo token : string)
    (acc : gmap string string) (page : Z) :
  polite (sent_to owner repo token)
    (list_labels_from fuel owner repo token acc page).
Proof.
  revert acc page. induction fuel as [|fuel IH]; intros acc page.
  - apply polite_out_of_fuel.
  - cbn [list_labels_from].
    apply polite_bind; [by apply polite_send|]. intros r.
    apply polite_bind; [apply polite_raise_for_status|]. intros _.
    apply polite_bind; [apply polite_json|]. intros data.
    destruct data; [apply polite_ret|apply IH].
Qed.

Lemma polite_ensure_labels (fuel : nat) (owner repo token : string)
    (wanted : list string) :
  polite (sent_to owner repo token) (ensure_labels fuel owner repo token wanted).
Proof.
  unfold ensure_labels, list_labels.
  apply polite_bind; [apply polite_list_labels_from|]. intros existing.
  apply polite_for_each. intros name.
  apply polite_try_except; [|intros e; apply polite_print_stderr].
  apply polite_bind; [by apply polite_send|]. intros r.
  apply polite_raise_for_status.
Qed.

Lemma polite_create_row (args : Args) (owner repo token : string)
    (milestone_number : option Z) (st : Maps) (r : Row) :
  polite (sent_to owner repo token)
    (create_row args owner repo token milestone_number st r).
Proof.
  unfold create_row. destruct (dry_run args).
  - apply polite_bind; [apply polite_print|]. intros _. apply polite_ret.
  - apply polite_bind; [by apply polite_checked|]. intros issue.
    apply polite_bind; [apply polite_print|]. intros _. apply polite_ret.
Qed.

Lemma polite_link_row (owner repo token : string) (st : Maps) (r : Row) :
  polite (sent_to owner repo token) (link_row owner repo token st r).
Proof.
  unfold link_row.
  destruct (id_to_issue st !! (r !! "ID")) as [n|]; [|apply polite_ret].
  destruct (negb (truthy_ref n)); [apply polite_ret|].
  apply polite_bind; [apply polite_lift|]. intros e.
  destruct (truthy e); [|apply polite_ret].
  apply polite_bind; [by apply polite_send|]. intros get_r.
  apply polite_bind; [apply polite_raise_for_status|]. intros _.
  apply polite_bind; [apply polite_json|]. intros current.
  apply polite_bind; [by apply polite_checked|]. intros _. apply polite_ret.
Qed.

Lemma polite_link_parent (owner repo token : string) (rows : list Row)
    (st : Maps) (item : string * list (option string)) :
  polite (sent_to owner repo token) (link_parent owner repo token rows st item).
Proof.
  unfold link_parent. destruct item as [parent_id children].
  destruct (id_to_issue st !! Some parent_id) as [n|]; [|apply polite_ret].
  destruct (negb (truthy_ref n)); [apply polite_ret|].
  apply polite_bind; [by apply polite_send|]. intros get_r.
  apply polite_bind; [apply polite_raise_for_status|]. intros _.
  apply polite_bind; [apply polite_json|]. intros current.
  apply polite_bind; [apply polite_lift|]. intros lines.
  apply polite_bind; [by apply polite_checked|]. intros _. apply polite_ret.
Qed.

Lemma polite_weaken {A} (ok ok' : Exchange → Prop) (m : M A) :
  (∀ x, ok x → ok' x) → polite ok m → polite ok' m.
Proof.
  intros Himp Hm w. destruct (Hm w) as (He & Hf & xs & Ht & Hx).
  repeat split; [done..|]. exists xs. split; [done|].
  by apply (Forall_impl _ _ _ Hx).
Qed.

Lemma polite_lift_Ok {A B} (ok : Exchange → Prop) (a : A) (k : A → M B) :
  polite ok (k a) → polite ok (lift (Ok a) ≫= k).
Proof. intros H w. exact (H w). Qed.

(** X19.  Whatever its input and its mode, and however it ends, [main]
    leaves the environment and the files as they are and takes nothing off
    the transcript; every request it sends carries the four headers of
    [gh_headers] with the token of the environment as bearer, and is
    addressed to the owner and the repository that the repository name of
    the environment gives. *)
Theorem main_requests_carry_token (fuel : nat) (args : Args) (w : World) :
  environ (main fuel args w).2 = environ w
  ∧ files (main fuel args w).2 = files w
  ∧ ∃ xs,
      transcript (main fuel args w).2 = transcript w ++ xs
      ∧ Forall (λ x,
          x_headers x = gh_headers (default "" (environ w !! "GITHUB_TOKEN"))
          ∧ unpack2 (split_first "/"
                       (default "" (environ w !! "GITHUB_REPOSITORY")))
            = Ok (target (x_request x)))
          xs.
Proof.
  unfold main.
  rewrite (bind_Ok _ _ w w (environ w !! "GITHUB_REPOSITORY")) by reflexivity.
  rewrite (bind_Ok _ _ w w (environ w !! "GITHUB_TOKEN")) by reflexivity.
  set (token := default "" (environ w !! "GITHUB_TOKEN")).
  set (repo_full := default "" (environ w !! "GITHUB_REPOSITORY")).
  lazymatch goal with
  | |- environ (?m w).2 = _ ∧ _ =>
      cut (polite (λ x, x_headers x = gh_headers token
                        ∧ unpack2 (split_first "/" repo_full)
                          = Ok (target (x_request x))) m);
        [intros Hp; exact (Hp w)|]
  end.
  destruct (_ || _).
  { apply polite_bind; [apply polite_print_stderr|]. intros _.
    apply polite_raise. }
  destruct (unpack2 (split_first "/" repo_full)) as [[owner repo]|e|];
    [|by apply polite_still..].
  apply (polite_weaken (sent_to owner repo token)).
  { intros x [Hh Ht]. by rewrite Ht. }
  apply polite_lift_Ok.
  apply polite_bind; [apply polite_parse_csv|]. intros rows.
  apply polite_bind; [apply polite_print|]. intros _.
  apply polite_bind.
  { destruct (truthy _); [|apply polite_ret].
    destruct (negb _).
    - apply polite_bind; [apply polite_ensure_milestone|]. intros n.
      apply polite_ret.
    - apply polite_bind; [apply polite_print|]. intros _. apply polite_ret. }
  intros milestone_number.
  apply polite_bind.
  { destruct (negb _); [apply polite_ensure_labels|apply polite_print]. }
  intros _.
  apply polite_bind.
  { apply polite_for_fold. intros st r. apply polite_create_row. }
  intros st. destruct (dry_run args); [apply polite_print|].
  apply polite_bind.
  - apply polite_for_each. intros r. apply polite_link_row.
  - intros _. apply polite_for_each. intros item. apply polite_link_parent.
Qed.

Lemma main_requests_carry_token_witness :
  Forall (λ x, x_headers x = gh_headers "secret"
               ∧ target (x_request x) = ("acme", "app"))
    (transcript (main 1 real_args sample_world).2).
Proof.
  destruct (main_requests_carry_token 1 real_args sample_world)
    as (_ & _ & xs & -> & Hxs).
  apply (Forall_impl _ _ _ Hxs). intros x [Hh Ht]. split; [exact Hh|].
  change (Ok ("acme", "app") = Ok (target (x_request x))) in Ht.
  injection Ht as Ht. by rewrite <- Ht.
Defined.

(** ** A failure before the creation pass *)

Lemma bind_Raise {A B} (m : M A) (k : A → M B) (w w1 : World) (e : Exn) :
  m w = (Raise e, w1) → (m ≫= k) w = (Raise e, w1).
Proof. unfold mbind, M_bind. by intros ->. Qed.

(** X20.  Outside dry runs the milestone comes first: when the listing of
    the milestones is answered with an error, [main] raises it after that
    one request; the rows have been loaded and counted, but no label and no
    issue has been asked for. *)
Theorem main_milestone_failure (fuel : nat) (args : Args) (w : World)
    (repo_full token owner repo : string) (records : list (list string))
    (rows : list Row) (c : Z) :
  dry_run args = false → milestone args ≠ "" →
  environ w !! "GITHUB_REPOSITORY" = Some repo_full → repo_full ≠ "" →
  environ w !! "GITHUB_TOKEN" = Some token → token ≠ "" →
  unpack2 (split_first "/" repo_full) = Ok (owner, repo) →
  files w !! csv args = Some records →
  stripped_rows (DictReader records) = Ok rows →
  head (faults w) = Some (Status c) →
  main fuel args w
  = (Raise (HTTPError c),
     exchanged (printed w [Loaded (length rows) (csv args)]) (remote w)
       {| x_headers := gh_headers token;
          x_request := Sent (GET_milestones owner repo);
          x_error := Some (HTTPError c) |}).
Proof.
  intros Hdry Hms Hrepo Hrepo' Htoken Htoken' Hsplit Hfile Hrows Hfault.
  unfold main. rewrite Hdry. cbn [negb].
  rewrite (bind_Ok _ _ w w (Some repo_full))
    by (unfold os_environ_get; by rewrite Hrepo).
  rewrite (bind_Ok _ _ w w (Some token))
    by (unfold os_environ_get; by rewrite Htoken).
  cbn [truthy_opt default from_option id]. unfold truthy at 1 2.
  rewrite (proj2 (String.eqb_neq repo_full "")) by done.
  rewrite (proj2 (String.eqb_neq token "")) by done. cbn [negb orb].
  rewrite Hsplit.
  rewrite (bind_Ok _ _ w w (owner, repo)) by reflexivity.
  rewrite (bind_Ok _ _ w w rows)
    by (unfold parse_csv; by rewrite Hfile, Hrows).
  rewrite (bind_Ok _ _ _ _ _ (print_printed _ _)).
  rewrite (proj2 (truthy_spec (milestone args))) by done.
  apply bind_Raise, bind_Raise.
  apply (ensure_milestone_listing_fails owner repo (milestone args) token
           (printed w [Loaded (length rows) (csv args)]) c Hfault).
Qed.

Lemma main_milestone_failure_witness :
  ∃ w1,
    main 1 real_args
      {| environ := environ sample_world; files := files sample_world;
         remote := empty_remote; faults := [Status 503];
         transcript := []; stdout := []; stderr := [] |}
    = (Raise (HTTPError 503), w1)
    ∧ issues (remote w1) = [] ∧ length (transcript w1) = 1%nat.
Proof.
  eexists. split; [|split].
  - apply (main_milestone_failure 1 real_args _ "acme/app" "secret" "acme"
             "app" sample_records sample_rows 503);
      (reflexivity || discriminate || (vm_compute; reflexivity)).
  - reflexivity.
  - reflexivity.
Defined.

(** ** Linking a parent *)

(** X21.  The turn of a parent in the last loop does nothing, and sends
    nothing, when the parent's identifier is not in the Local-to-Remote Map:
    the subtasks of a parent that is not a row of the file are dropped
    without error.  When the parent's issue exists and the lines of its
    subtasks are computed, the turn reads the issue, then writes back the
    body it has read, the empty string for a missing body, followed by the
    lines joined by newlines; these two requests are all it sends. *)
Theorem link_parent_appends (owner repo token : string) (rows : list Row)
    (st : Maps) (w : World) (parent : string)
    (children : list (option string)) :
  (id_to_issue st !! Some parent = None →
   link_parent owner repo token rows st (parent, children) w = (Ok tt, w))
  ∧ (∀ n i lines,
       calm 2 w →
       id_to_issue st !! Some parent = Some (Number n) → n ≠ 0 →
       find_issue (Number n) (issues (remote w)) = Some i →
       subtask_lines rows (id_to_issue st) children = Ok lines →
       ∃ w1,
         link_parent owner repo token rows st (parent, children) w
         = (Ok tt, w1)
         ∧ map x_request (skipn (length (transcript w)) (transcript w1))
           = [ Sent (GET_issue owner repo (Number n));
               Sent (PATCH_issue owner repo (Number n)
                       (or_else (is_body i) "" +:+ join nl lines)) ]
         ∧ issues (remote w1)
           = set_body n (or_else (is_body i) "" +:+ join nl lines)
               (issues (remote w))).
Proof.
  split.
  - intros Hnone. unfold link_parent. by rewrite Hnone.
  - intros n i lines Hcalm Hparent Hn Hfind Hlines.
    unfold link_parent. rewrite Hparent. cbn [truthy_ref].
    rewrite (proj2 (Z.eqb_neq n 0)) by done. cbn [negb].
    rewrite (bind_Ok _ _ _ _ _
               (requests_send_serve _ _ w (calm_head _ _ Hcalm))).
    cbn [serve]. rewrite Hfind. cbn [fst snd error_of].
    erewrite bind_Ok by reflexivity. erewrite bind_Ok by reflexivity.
    rewrite Hlines.
    set (w0 := exchanged w (remote w) _).
    rewrite (bind_Ok _ _ w0 w0 lines) by reflexivity.
    assert (calm 1 w0) as Hcalm0 by (by apply (calm_tail 1 w w0)).
    destruct (update_issue_served owner repo token n
                (or_else (is_body i) "" +:+ join nl lines) w0 i
                (calm_head _ _ Hcalm0) Hfind) as [i1 Hup].
    rewrite (bind_Ok _ _ _ _ _ Hup).
    eexists. split; [reflexivity|].
    cbn [transcript exchanged remote issues w0].
    rewrite <- app_assoc, drop_app_length. by split.
Qed.

Lemma link_parent_appends_witness :
  link_parent "acme" "app" "secret" sample_rows linked_maps
    ("ghost", [Some "P2"]) linked_world
  = (Ok tt, linked_world).
Proof.
  apply (link_parent_appends "acme" "app" "secret" sample_rows linked_maps
           linked_world "ghost" [Some "P2"]).
  reflexivity.
Defined.
